(** * SED summary uploader: a shallow embedding of [upload_sed_summary.py]

    The development follows the source file top to bottom:
    - pure paths ([pathlib.PurePosixPath]: [joinpath], [child], [name]);
    - a read-only file-system tree with path resolution ([stat]);
    - [datetime.strptime(_, "%Y-%m-%d")] as CPython's [_strptime] computes it;
    - exception classes and the outcome of a computation (returned or raised);
    - a state monad over the chronological list of observable events
      (log records, file-system calls, HTTP requests, printed lines);
    - the methods of [SEDSummaryUploader] and [main], written in that monad.

    Modelling scope.  A string is the UTF-8 encoding of a Python [str]
    ([String.string], a list of bytes); the date pattern reads it code
    point by code point and knows the decimal digits of Unicode 14.0, the
    version of CPython 3.11.  The file system has no symbolic links and no
    permissions, and is not modified while the program runs; a name longer
    than [NAME_MAX] bytes is refused by the resolution of a path, and the
    limit on a whole path string, [PATH_MAX], is a hypothesis of the
    theorems that say how a path made of command-line names is answered.
    [Path.exists] and [Path.is_dir] are those of CPython 3.11: they give
    [False] for a missing entry and let any other error of [stat]
    through.  A coroutine object is a suspended
    computation of the monad; [await] on a bare coroutine object runs it
    in place. *)

From Stdlib Require Import List String Ascii Bool ZArith NArith Lia Arith.
Import ListNotations.
Open Scope string_scope.
Open Scope list_scope.

Set Implicit Arguments.

(* ------------------------------------------------------------------ *)
(** ** Pure paths *)

Module PurePath.

(** A posix path: its root ([""] when relative, ["/"] or ["//"]) and its
    components. *)
Record Path : Type := mkPath { root : string; parts : list string }.

Fixpoint split_on (sep : ascii) (s : string) : list string :=
  match s with
  | EmptyString => [EmptyString]
  | String c rest =>
      if Ascii.eqb c sep then EmptyString :: split_on sep rest
      else match split_on sep rest with
           | [] => [String c EmptyString]
           | h :: t => String c h :: t
           end
  end.

(** [posixpath.splitroot]: exactly two leading slashes are kept as a root
    of their own, one or three and more collapse to ["/"]. *)
Definition splitroot (s : string) : string :=
  match s with
  | String "/" (String "/" (String "/" _)) => "/"
  | String "/" (String "/" _) => "//"
  | String "/" _ => "/"
  | _ => ""
  end.

Definition kept_part (c : string) : bool :=
  negb (String.eqb c "" || String.eqb c ".").

(** Parsing of one string argument: empty and ["."] components vanish,
    [".."] stays. *)
Definition parse_parts (s : string) : string * list string :=
  (splitroot s, filter kept_part (split_on "/" s)).

(** [p / s]: an anchored right operand replaces the left one. *)
Definition joinpath (p : Path) (s : string) : Path :=
  let '(r, cs) := parse_parts s in
  if String.eqb r "" then mkPath (root p) (parts p ++ cs)
  else mkPath r cs.

(** [p._make_child_relpath(name)], used by [iterdir]: the entry name is
    appended as it is. *)
Definition child (p : Path) (entry : string) : Path :=
  mkPath (root p) (parts p ++ [entry]).

(** [p.name] *)
Definition name (p : Path) : string := last (parts p) "".

Definition of_string (s : string) : Path :=
  let '(r, cs) := parse_parts s in mkPath r cs.

(** [q] lies lexically below [p]: same root, [p]'s components first, and
    no [".."] afterwards that could climb out again. *)
Definition below (p q : Path) : Prop :=
  root q = root p /\
  exists suffix, parts q = parts p ++ suffix /\ ~ In ".." suffix.

End PurePath.
Import PurePath.

Notation "p // s" := (joinpath p s) (at level 40, left associativity).

(* ------------------------------------------------------------------ *)
(** ** The file system *)

(** A regular file carries its content decoded as UTF-8 ([None] when the
    bytes do not decode); a directory lists its entries in enumeration
    order. *)
#[warnings="-register-all"]
Inductive node : Type :=
| File (text : option string)
| Dir (entries : list (string * node)).

Fixpoint lookup (k : string) (es : list (string * node)) : option node :=
  match es with
  | [] => None
  | (k', n) :: es' => if String.eqb k k' then Some n else lookup k es'
  end.

(** The longest name of a directory entry, in bytes, and the length at
    which the kernel refuses a whole path string: 1024 is the smaller of
    the two common values (macOS, where the base directory of the source
    lives; Linux has 4096), so a path below it is accepted on both. *)
Definition NAME_MAX : nat := 255.

Definition PATH_MAX : nat := 1024.

(** [str(p)] *)
Definition path_string (p : Path) : string :=
  String.append (root p) (String.concat "/" (parts p)).

(** What resolving a path gives: the node it names, or the error of the
    failing step ([ENOENT]: no such entry; [ENOTDIR]: a component that must
    be a directory is a regular file; [ENAMETOOLONG]: a name longer than
    [NAME_MAX] is looked up in a directory). *)
Inductive resolved : Type :=
| Found (n : node)
| ENOENT
| ENOTDIR
| ENAMETOOLONG.

(** Resolution of the components of an absolute path from the root
    directory; [anc] holds the directories entered so far, nearest first,
    so that [".."] can step back ([".."] at the root stays at the root). *)
Fixpoint walk (anc : list node) (cur : node) (cs : list string) : resolved :=
  match cs with
  | [] => Found cur
  | c :: cs' =>
      match cur with
      | File _ => ENOTDIR
      | Dir es =>
          if String.eqb c ".." then
            match anc with
            | [] => walk [] cur cs'
            | up :: anc' => walk anc' up cs'
            end
          else if (NAME_MAX <? String.length c)%nat then ENAMETOOLONG
          else
            match lookup c es with
            | Some n => walk (cur :: anc) n cs'
            | None => ENOENT
            end
      end
  end.

(** [os.stat]: the roots ["/"] and ["//"] name the same directory. *)
Definition stat (fs : node) (p : Path) : resolved := walk [] fs (parts p).

(** The names a directory can hold and [os.listdir] gives: not the
    special entries ["."] and [".."], and at most [NAME_MAX] bytes. *)
Definition special_entry (n : string) : bool :=
  String.eqb n "." || String.eqb n "..".

Definition entry_names (es : list (string * node)) : list string :=
  filter (fun n => negb (special_entry n)
                   && (String.length n <=? NAME_MAX)%nat)
         (map fst es).

Definition listdir (fs : node) (p : Path) : list string :=
  match stat fs p with Found (Dir es) => entry_names es | _ => [] end.

(* ------------------------------------------------------------------ *)
(** ** [datetime.strptime(s, "%Y-%m-%d")] *)

Module Strptime.

(** *** Code points *)

Definition byte (c : ascii) : N := N_of_ascii c.

Definition continuation (b : N) : bool := ((128 <=? b) && (b <? 192))%N.

(** The first code point of a string and what follows it.  A byte that
    starts no well-formed UTF-8 sequence stands for the lone surrogate
    [U+DC00 + byte] that the file-system encoding ([surrogateescape])
    gives it. *)
Definition next_code_point (s : string) : option (N * string) :=
  match s with
  | EmptyString => None
  | String c0 r0 =>
      let b0 := byte c0 in
      let escaped := Some ((56320 + b0)%N, r0) in
      if (b0 <? 128)%N then Some (b0, r0)
      else if (b0 <? 194)%N then escaped
      else if (b0 <? 224)%N then
        match r0 with
        | String c1 r1 =>
            let b1 := byte c1 in
            if continuation b1
            then Some (((b0 - 192) * 64 + (b1 - 128))%N, r1)
            else escaped
        | _ => escaped
        end
      else if (b0 <? 240)%N then
        match r0 with
        | String c1 (String c2 r2) =>
            let b1 := byte c1 in
            let b2 := byte c2 in
            if continuation b1 && continuation b2
               && (negb (b0 =? 224)%N || (160 <=? b1)%N)
               && (negb (b0 =? 237)%N || (b1 <? 160)%N)
            then Some ((((b0 - 224) * 64 + (b1 - 128)) * 64 + (b2 - 128))%N, r2)
            else escaped
        | _ => escaped
        end
      else if (b0 <? 245)%N then
        match r0 with
        | String c1 (String c2 (String c3 r3)) =>
            let b1 := byte c1 in
            let b2 := byte c2 in
            let b3 := byte c3 in
            if continuation b1 && continuation b2 && continuation b3
               && (negb (b0 =? 240)%N || (144 <=? b1)%N)
               && (negb (b0 =? 244)%N || (b1 <? 144)%N)
            then Some (((((b0 - 240) * 64 + (b1 - 128)) * 64
                         + (b2 - 128)) * 64 + (b3 - 128))%N, r3)
            else escaped
        | _ => escaped
        end
      else escaped
  end.

(** The decimal digits of Unicode 14.0 (category [Nd]) come in runs of
    ten, zero to nine; these are the code points of the zeros. *)
Definition decimal_zeros : list N :=
  [48; 1632; 1776; 1984; 2406; 2534; 2662; 2790; 2918; 3046; 3174; 3302;
   3430; 3558; 3664; 3792; 3872; 4160; 4240; 6112; 6160; 6470; 6608; 6784;
   6800; 6992; 7088; 7232; 7248; 42528; 43216; 43264; 43472; 43504; 43600;
   44016; 65296; 66720; 68912; 69734; 69872; 69942; 70096; 70384; 70736;
   70864; 71248; 71360; 71472; 71904; 72016; 72784; 73040; 73120; 92768;
   92864; 93008; 120782; 120792; 120802; 120812; 120822; 123200; 123632;
   125264; 130032]%N.

(** The value of a decimal digit, as [int] reads it. *)
Definition decimal_value (cp : N) : option Z :=
  match find (fun zero => (zero <=? cp) && (cp <? zero + 10))%N decimal_zeros with
  | Some zero => Some (Z.of_N (cp - zero))
  | None => None
  end.

(** The class [\d] of a pattern on [str]: every decimal digit. *)
Definition is_digit (cp : N) : bool :=
  match decimal_value cp with Some _ => true | None => false end.

Definition digit (cp : N) : Z :=
  match decimal_value cp with Some v => v | None => 0%Z end.

(** A range [[lo-hi]] and a single character of the pattern. *)
Definition in_range (lo hi : ascii) (cp : N) : bool :=
  ((byte lo <=? cp) && (cp <=? byte hi))%N.

Definition chr (c : ascii) (cp : N) : bool := (cp =? byte c)%N.

(** *** The pattern *)

(** Each directive is a matcher giving its candidate matches, in the
    order the regular-expression engine tries the alternatives, each with
    the text that is left. *)
Definition matcher : Type := string -> list (Z * string).

(** One character of a class. *)
Definition one (ok : N -> bool) (s : string) : list (N * string) :=
  match next_code_point s with
  | Some (cp, r) => if ok cp then [(cp, r)] else []
  | None => []
  end.

(** Two characters, each of its class, read as a two-digit number. *)
Definition two (ok1 ok2 : N -> bool) : matcher := fun s =>
  flat_map (fun '(a, r) =>
    map (fun '(b, r') => ((10 * digit a + digit b)%Z, r')) (one ok2 r))
    (one ok1 s).

Definition single (ok : N -> bool) : matcher := fun s =>
  map (fun '(a, r) => (digit a, r)) (one ok s).

(** [%Y] is [\d\d\d\d]. *)
Definition re_Y : matcher := fun s =>
  flat_map (fun '(hi, r) => map (fun '(lo, r') => ((100 * hi + lo)%Z, r'))
                                (two is_digit is_digit r))
           (two is_digit is_digit s).

(** [%m] is [1[0-2]|0[1-9]|[1-9]]. *)
Definition re_m : matcher := fun s =>
  two (chr "1") (in_range "0" "2") s
  ++ two (chr "0") (in_range "1" "9") s
  ++ single (in_range "1" "9") s.

(** [%d] is [3[0-1]|[1-2]\d|0[1-9]|[1-9]| [1-9]]. *)
Definition re_d : matcher := fun s =>
  two (chr "3") (in_range "0" "1") s
  ++ two (in_range "1" "2") is_digit s
  ++ two (chr "0") (in_range "1" "9") s
  ++ single (in_range "1" "9") s
  ++ flat_map (fun '(_, r) => single (in_range "1" "9") r) (one (chr " ") s).

Definition lit (c : ascii) (s : string) : list string :=
  map snd (one (chr c) s).

(** The candidates of the whole pattern [%Y-%m-%d], in backtracking
    order; [re.match] takes the first. *)
Definition format_regex (s : string) : list (Z * Z * Z * string) :=
  flat_map (fun '(y, r1) =>
  flat_map (fun r2 =>
  flat_map (fun '(m, r3) =>
  flat_map (fun r4 =>
  map (fun '(d, r5) => (y, m, d, r5)) (re_d r4))
    (lit "-" r3)) (re_m r2)) (lit "-" r1)) (re_Y s).

Definition is_leap (y : Z) : bool :=
  (y mod 4 =? 0)%Z && (negb (y mod 100 =? 0)%Z || (y mod 400 =? 0)%Z).

Definition days_in_month (y m : Z) : Z :=
  if (m =? 2)%Z then (if is_leap y then 29 else 28)%Z
  else if ((m =? 4) || (m =? 6) || (m =? 9) || (m =? 11))%Z then 30%Z
  else 31%Z.

(** The check of the [date] constructor: [MINYEAR] is 1. *)
Definition valid_date (y m d : Z) : bool :=
  ((1 <=? y) && (y <=? 9999) && (1 <=? m) && (m <=? 12)
   && (1 <=? d) && (d <=? days_in_month y m))%Z.

(** [None] stands for the [ValueError] that [strptime] raises: no match,
    unconverted data after the match, or a date that does not exist. *)
Definition strptime (s : string) : option (Z * Z * Z) :=
  match format_regex s with
  | (y, m, d, rest) :: _ =>
      if String.eqb rest "" then
        if valid_date y m d then Some (y, m, d) else None
      else None
  | [] => None
  end.

Definition parses (s : string) : bool :=
  match strptime s with Some _ => true | None => false end.

End Strptime.
Import Strptime.

(* ------------------------------------------------------------------ *)
(** ** Exceptions *)

(** The exception classes the program can meet, with the class each one
    derives from.  [KeyboardInterrupt], [SystemExit] and [CancelledError]
    derive from [BaseException] only. *)
Inductive exn : Type :=
| BaseException | Exception
| KeyboardInterrupt | SystemExit | CancelledError
| OSError | FileNotFoundError | NotADirectoryError | IsADirectoryError
| TimeoutError
| ValueError | UnicodeDecodeError | JSONDecodeError
| ClientError | ClientConnectionError | ClientPayloadError
| RuntimeError.

Definition exn_eq_dec (a b : exn) : {a = b} + {a <> b}.
Proof. decide equality. Defined.

Definition superclass (c : exn) : option exn :=
  match c with
  | BaseException => None
  | Exception | KeyboardInterrupt | SystemExit | CancelledError =>
      Some BaseException
  | OSError | ValueError | ClientError | RuntimeError => Some Exception
  | FileNotFoundError | NotADirectoryError | IsADirectoryError
  | TimeoutError => Some OSError
  | UnicodeDecodeError | JSONDecodeError => Some ValueError
  | ClientConnectionError | ClientPayloadError => Some ClientError
  end.

Fixpoint ancestors (depth : nat) (c : exn) : list exn :=
  c :: match depth with
       | O => []
       | S depth' =>
           match superclass c with
           | Some b => ancestors depth' b
           | None => []
           end
       end.

(** [isinstance(e, c)]; no class is deeper than three steps below
    [BaseException]. *)
Definition isinstance (e c : exn) : bool :=
  existsb (fun a => if exn_eq_dec a c then true else false) (ancestors 3 e).

(** How a computation ends. *)
Inductive outcome (A : Type) : Type :=
| Return (a : A)
| Raise (e : exn).
Arguments Raise {A} e.

(** [Path.exists()] and [Path.is_dir()] as CPython 3.11 has them: a
    [stat] that fails with [ENOENT] or [ENOTDIR] is [False], any other
    failure is raised as the [OSError] it is. *)
Definition path_exists (fs : node) (p : Path) : outcome bool :=
  match stat fs p with
  | Found _ => Return true
  | ENOENT | ENOTDIR => Return false
  | ENAMETOOLONG => Raise OSError
  end.

Definition path_is_dir (fs : node) (p : Path) : outcome bool :=
  match stat fs p with
  | Found (Dir _) => Return true
  | Found (File _) | ENOENT | ENOTDIR => Return false
  | ENAMETOOLONG => Raise OSError
  end.

(** The answer is [True]. *)
Definition holds (o : outcome bool) : bool :=
  match o with Return true => true | _ => false end.

(* ------------------------------------------------------------------ *)
(** ** Observable events *)

Inductive level : Type := DEBUG | INFO | WARNING | ERROR.

(** The log records of the source, one constructor per message, with the
    values its f-string interpolates. *)
Inductive message : Type :=
| MsgBaseDirMissing (base : Path)
| MsgFound (device_id date : string) (file : Path)
| MsgTotalFound (n : nat)
| MsgFileMissing (file : Path)
| MsgUploadStart (device_id date : string)
| MsgUploadOk (device_id date : string)
| MsgUploadFailed (device_id date : string) (status : Z) (error_text : string)
| MsgConnectionError (device_id date : string) (e : exn)
| MsgJSONError (device_id date : string) (e : exn)
| MsgFileNotFound (file : Path)
| MsgUnexpected (device_id date : string) (e : exn)
| MsgNothingToUpload
| MsgNoSuchSummary (device_id date : string)
| MsgRunStart
| MsgRunSpecific (device_id date : string)
| MsgRunAll.

(** The lines [main] prints. *)
Inductive line : Type :=
| OutPairError
| OutDateError
| OutHeader
| OutSuccess (n : nat)
| OutFailed (n : nat)
| OutTotal (n : nat)
| OutRate (success total : nat)
| OutDone
| OutNoFiles
| OutAllFailed.

Inductive syscall : Type :=
| SysStat (p : Path)
| SysListdir (p : Path)
| SysOpen (p : Path).

Inductive ssl_context : Type := NoVerification.

(** The [ssl] argument of [aiohttp.TCPConnector]. *)
Inductive ssl_param : Type :=
| SslTrue
| SslContext (ctx : option ssl_context).

Record ClientSession : Type := mkSession { connector_ssl : ssl_param }.

(** One multipart POST: the [file] field with its file name and content
    type, the two text fields, and the total timeout in seconds. *)
Record request : Type := mkRequest {
  req_url : string;
  req_file : string;
  req_filename : string;
  req_content_type : string;
  req_device_id : string;
  req_date : string;
  req_timeout : Z
}.

Inductive event : Type :=
| Log (l : level) (m : message)
| Fs (c : syscall)
| Post (s : ClientSession) (r : request)
| ReadBody
| SessionOpen (s : ClientSession)
| SessionClose
| BasicConfig (l : level)
| SetLevel (l : level)
| Stdout (l : line).

Definition is_fs (ev : event) : bool :=
  match ev with Fs _ => true | _ => false end.

Definition is_init (ev : event) : bool :=
  match ev with BasicConfig _ => true | _ => false end.

Fixpoint posts (t : list event) : list request :=
  match t with
  | [] => []
  | Post _ r :: t' => r :: posts t'
  | _ :: t' => posts t'
  end.

Fixpoint printed (t : list event) : list line :=
  match t with
  | [] => []
  | Stdout l :: t' => l :: printed t'
  | _ :: t' => printed t'
  end.

Fixpoint touched (t : list event) : list Path :=
  match t with
  | [] => []
  | Fs (SysStat p) :: t' | Fs (SysListdir p) :: t' | Fs (SysOpen p) :: t' =>
      p :: touched t'
  | _ :: t' => touched t'
  end.

(* ------------------------------------------------------------------ *)
(** ** The environment *)

(** What [session.post] meets: an exception, or a response with its
    status and what reading its body gives. *)
Inductive post_outcome : Type :=
| PostRaises (e : exn)
| PostResponse (status : Z) (text : outcome string).

Record ClientResponse : Type := mkResponse {
  status : Z;
  body : outcome string
}.

(** The file system and the remote end.  The answer to a request may
    depend on the requests sent before it (oldest first). *)
Record world : Type := mkWorld {
  fs : node;
  net : list request -> ClientSession -> request -> post_outcome
}.

(* ------------------------------------------------------------------ *)
(** ** The monad of the program *)

(** A computation extends the chronological trace of events and returns
    or raises. *)
Definition M (A : Type) : Type := list event -> outcome A * list event.

Definition ret {A} (a : A) : M A := fun t => (Return a, t).

Definition raise {A} (e : exn) : M A := fun t => (Raise e, t).

(** A computation that ends as [o] and adds no event. *)
Definition ended {A} (o : outcome A) : M A := fun t => (o, t).

Definition bind {A B} (m : M A) (f : A -> M B) : M B := fun t =>
  match m t with
  | (Return a, t') => f a t'
  | (Raise e, t') => (Raise e, t')
  end.

Declare Scope prog_scope.
Delimit Scope prog_scope with prog.
Notation "x <- m ;; k" := (bind m (fun x => k))
  (at level 100, m at next level, right associativity) : prog_scope.
Notation "' pat <- m ;; k" := (bind m (fun x => let 'pat := x in k))
  (at level 100, pat pattern, m at next level, right associativity) : prog_scope.
Notation "m ;; k" := (bind m (fun _ => k))
  (at level 100, right associativity) : prog_scope.
Open Scope prog_scope.

Definition emit (ev : event) : M unit := fun t => (Return tt, t ++ [ev]).

Definition log (l : level) (m : message) : M unit := emit (Log l m).

Definition print (l : line) : M unit := emit (Stdout l).

(** [try: m except c1 as e: h1 e except c2 as e: h2 e ...]: the first
    clause whose class the exception is an instance of handles it; with
    none, it propagates. *)
Definition try_except {A} (m : M A) (clauses : list (exn * (exn -> M A))) : M A :=
  fun t =>
    match m t with
    | (Return a, t') => (Return a, t')
    | (Raise e, t') =>
        match find (fun cl => isinstance e (fst cl)) clauses with
        | Some cl => snd cl e t'
        | None => (Raise e, t')
        end
    end.

(** [for x in xs: body], threading the variables the body updates;
    [continue] is [ret] of the variables unchanged. *)
Fixpoint for_each {X S} (xs : list X) (s : S) (body : S -> X -> M S) : M S :=
  match xs with
  | [] => ret s
  | x :: xs' => s' <- body s x ;; for_each xs' s' body
  end.

(** [await c] on a coroutine object [c]: the coroutine runs here, to its
    end, in the awaiting task. *)
Definition await {A} (c : M A) : M A := c.

(* ------------------------------------------------------------------ *)
(** ** The uploader *)

Record RunResult : Type := mkResult {
  success : nat;
  failed : nat;
  total : nat
}.

Record SEDSummaryUploader : Type := mkUploader {
  upload_url : string;
  base_dir : Path;
  verify_ssl : bool;
  ssl_ctx : option ssl_context
}.

Definition DEFAULT_UPLOAD_URL : string :=
  "https://api.hey-watch.me/upload/analysis/sed-summary".

Definition BASE_DIR : Path :=
  of_string "/Users/kaya.matsumoto/data/data_accounts".

(** [SEDSummaryUploader.__init__] *)
Definition init (url : string) (verify : bool) : M SEDSummaryUploader :=
  let self := mkUploader url BASE_DIR verify
                (if negb verify then Some NoVerification else None) in
  emit (BasicConfig INFO) ;;
  ret self.

(** Python truth value of an [Optional[str]]. *)
Definition truthy (o : option string) : bool :=
  match o with
  | Some s => negb (String.eqb s "")
  | None => false
  end.

Definition str_of (o : option string) : string :=
  match o with Some s => s | None => "" end.

(** The namespace [parse_args] returns. *)
Record Namespace : Type := mkArgs {
  arg_device_id : option string;
  arg_date : option string;
  arg_upload_url : string;
  arg_verbose : bool
}.

Section Program.

Variable w : world.

(** *** File-system and network calls *)

Definition exists_ (p : Path) : M bool :=
  emit (Fs (SysStat p)) ;; ended (path_exists (fs w) p).

Definition is_dir (p : Path) : M bool :=
  emit (Fs (SysStat p)) ;; ended (path_is_dir (fs w) p).

(** [p.iterdir()]: the children of [p], in enumeration order. *)
Definition iterdir (p : Path) : M (list Path) :=
  emit (Fs (SysListdir p)) ;;
  match stat (fs w) p with
  | Found (Dir es) => ret (map (child p) (entry_names es))
  | Found (File _) => raise NotADirectoryError
  | ENOENT => raise FileNotFoundError
  | ENOTDIR => raise NotADirectoryError
  | ENAMETOOLONG => raise OSError
  end.

(** [with open(p, 'r', encoding='utf-8') as f: f.read()] *)
Definition read_text (p : Path) : M string :=
  emit (Fs (SysOpen p)) ;;
  match stat (fs w) p with
  | Found (File (Some text)) => ret text
  | Found (File None) => raise UnicodeDecodeError
  | Found (Dir _) => raise IsADirectoryError
  | ENOENT => raise FileNotFoundError
  | ENOTDIR => raise NotADirectoryError
  | ENAMETOOLONG => raise OSError
  end.

(** [session.post(url, data=form_data, timeout=...)] *)
Definition post (session : ClientSession) (r : request) : M ClientResponse :=
  fun t =>
    match net w (posts t) session r with
    | PostRaises e => (Raise e, t ++ [Post session r])
    | PostResponse st text => (Return (mkResponse st text), t ++ [Post session r])
    end.

(** [await response.text()] *)
Definition response_text (r : ClientResponse) : M string :=
  emit ReadBody ;;
  match body r with
  | Return s => ret s
  | Raise e => raise e
  end.

(** [async with aiohttp.ClientSession(connector=connector) as session];
    the session is closed however the block ends. *)
Definition with_session {A} (ssl : ssl_param) (block : ClientSession -> M A) : M A :=
  let session := mkSession ssl in
  emit (SessionOpen session) ;;
  fun t =>
    let '(r, t') := block session t in
    (r, t' ++ [SessionClose]).

(** *** Methods *)

Definition summary_path (date_dir : Path) : Path :=
  date_dir // "sed-summary" // "result.json".

(** The body of the inner loop of [find_all_summary_files]. *)
Definition scan_date_dir (device_id : string)
    (summary_files : list (string * string * Path)) (date_dir : Path)
  : M (list (string * string * Path)) :=
  d <- is_dir date_dir ;;
  if negb d then ret summary_files
  else
    let date := name date_dir in
    match strptime date with
    | None => ret summary_files
    | Some _ =>
        let summary_file := summary_path date_dir in
        e <- exists_ summary_file ;;
        if e then
          let summary_files' :=
            summary_files ++ [(device_id, date, summary_file)] in
          log DEBUG (MsgFound device_id date summary_file) ;;
          ret summary_files'
        else ret summary_files
    end.

(** The body of the outer loop. *)
Definition scan_device_dir
    (summary_files : list (string * string * Path)) (device_dir : Path)
  : M (list (string * string * Path)) :=
  d <- is_dir device_dir ;;
  if negb d then ret summary_files
  else
    let device_id := name device_dir in
    date_dirs <- iterdir device_dir ;;
    for_each date_dirs summary_files (scan_date_dir device_id).

Definition find_all_summary_files (self : SEDSummaryUploader)
  : M (list (string * string * Path)) :=
  e <- exists_ (base_dir self) ;;
  if negb e then
    log WARNING (MsgBaseDirMissing (base_dir self)) ;;
    ret []
  else
    device_dirs <- iterdir (base_dir self) ;;
    summary_files <- for_each device_dirs [] scan_device_dir ;;
    log INFO (MsgTotalFound (List.length summary_files)) ;;
    ret summary_files.

Definition find_summary_file (self : SEDSummaryUploader)
    (device_id date : string) : M (option Path) :=
  let file_path :=
    base_dir self // device_id // date // "sed-summary" // "result.json" in
  e <- exists_ file_path ;;
  if e then ret (Some file_path)
  else
    log WARNING (MsgFileMissing file_path) ;;
    ret None.

Definition form_data (self : SEDSummaryUploader)
    (file_content device_id date : string) : request :=
  mkRequest (upload_url self) file_content "result.json"
            "application/json" device_id date 60.

(** The [try] block of [upload_summary_file]. *)
Definition upload_attempt (self : SEDSummaryUploader)
    (session : ClientSession) (device_id date : string) (file_path : Path)
  : M bool :=
  log INFO (MsgUploadStart device_id date) ;;
  file_content <- read_text file_path ;;
  response <- post session (form_data self file_content device_id date) ;;
  if (status response =? 200)%Z then
    log INFO (MsgUploadOk device_id date) ;;
    ret true
  else
    error_text <- response_text response ;;
    log ERROR (MsgUploadFailed device_id date (status response) error_text) ;;
    ret false.

(** The [except] clauses of [upload_summary_file], in source order. *)
Definition upload_clauses (device_id date : string) (file_path : Path)
  : list (exn * (exn -> M bool)) :=
  [ (ClientError, fun e =>
       log ERROR (MsgConnectionError device_id date e) ;; ret false);
    (JSONDecodeError, fun e =>
       log ERROR (MsgJSONError device_id date e) ;; ret false);
    (FileNotFoundError, fun _ =>
       log ERROR (MsgFileNotFound file_path) ;; ret false);
    (Exception, fun e =>
       log ERROR (MsgUnexpected device_id date e) ;; ret false) ].

Definition upload_summary_file (self : SEDSummaryUploader)
    (session : ClientSession) (device_id date : string) (file_path : Path)
  : M bool :=
  try_except (upload_attempt self session device_id date file_path)
             (upload_clauses device_id date file_path).

Definition connector_param (self : SEDSummaryUploader) : ssl_param :=
  if negb (verify_ssl self) then SslContext (ssl_ctx self) else SslTrue.

(** The second loop of [upload_all_summaries]: each coroutine object is
    awaited in turn and its outcome counted. *)
Definition collect (counts : nat * nat) (entry : string * string * M bool)
  : M (nat * nat) :=
  let '(success_count, failed_count) := counts in
  let '(_, _, task) := entry in
  ok <- await task ;;
  if ok then ret (S success_count, failed_count)
  else ret (success_count, S failed_count).

Definition upload_all_summaries (self : SEDSummaryUploader) : M RunResult :=
  summary_files <- find_all_summary_files self ;;
  match summary_files with
  | [] =>
      log WARNING MsgNothingToUpload ;;
      ret (mkResult 0 0 0)
  | _ :: _ =>
      counts <- with_session (connector_param self) (fun session =>
        (* the calls build coroutine objects; nothing runs yet *)
        let tasks :=
          map (fun '(device_id, date, file_path) =>
                 (device_id, date,
                  upload_summary_file self session device_id date file_path))
              summary_files in
        for_each tasks (0, 0) collect) ;;
      ret (mkResult (fst counts) (snd counts) (List.length summary_files))
  end.

Definition upload_specific_summary (self : SEDSummaryUploader)
    (device_id date : string) : M bool :=
  file_path <- find_summary_file self device_id date ;;
  match file_path with
  | None =>
      log ERROR (MsgNoSuchSummary device_id date) ;;
      ret false
  | Some file_path =>
      with_session (connector_param self) (fun session =>
        await (upload_summary_file self session device_id date file_path))
  end.

Definition run (self : SEDSummaryUploader) (device_id date : option string)
  : M RunResult :=
  log INFO MsgRunStart ;;
  if truthy device_id && truthy date then
    log INFO (MsgRunSpecific (str_of device_id) (str_of date)) ;;
    ok <- await (upload_specific_summary self (str_of device_id) (str_of date)) ;;
    ret (mkResult (if ok then 1 else 0) (if ok then 0 else 1) 1)
  else
    log INFO MsgRunAll ;;
    await (upload_all_summaries self).

(** *** The command line *)

Definition report (result : RunResult) : M unit :=
  print OutHeader ;;
  print (OutSuccess (success result)) ;;
  print (OutFailed (failed result)) ;;
  print (OutTotal (total result)) ;;
  (if (0 <? total result)%nat
   then print (OutRate (success result) (total result))
   else ret tt) ;;
  if (0 <? success result)%nat then print OutDone
  else if (total result =? 0)%nat then print OutNoFiles
  else print OutAllFailed.

Definition main (args : Namespace) : M unit :=
  (if arg_verbose args then emit (SetLevel DEBUG) else ret tt) ;;
  if (truthy (arg_device_id args) && negb (truthy (arg_date args)))
     || (negb (truthy (arg_device_id args)) && truthy (arg_date args))
  then print OutPairError
  else if truthy (arg_date args) && negb (parses (str_of (arg_date args)))
  then print OutDateError
  else
    uploader <- init (arg_upload_url args) true ;;
    result <- await (run uploader (arg_device_id args) (arg_date args)) ;;
    report result.

End Program.

(* ------------------------------------------------------------------ *)
(** ** What the methods compute, without the events *)

(** The triples bulk discovery collects below one device directory and
    below the base directory, in enumeration order. *)
Definition found_in_date_dir (fs : node) (device_id : string) (date_dir : Path)
  : list (string * string * Path) :=
  if holds (path_is_dir fs date_dir)
     && parses (name date_dir)
     && holds (path_exists fs (summary_path date_dir))
  then [(device_id, name date_dir, summary_path date_dir)]
  else [].

Definition found_in_device_dir (fs : node) (device_dir : Path)
  : list (string * string * Path) :=
  if holds (path_is_dir fs device_dir)
  then flat_map (found_in_date_dir fs (name device_dir))
                (map (child device_dir) (listdir fs device_dir))
  else [].

Definition discovered (fs : node) (base : Path) : list (string * string * Path) :=
  flat_map (found_in_device_dir fs) (map (child base) (listdir fs base)).

(** The remote end fails only with exceptions that derive from
    [Exception]: neither a request nor the reading of a response body is
    cut short by [KeyboardInterrupt], [SystemExit] or a cancellation. *)
Definition fails_with_exceptions (w : world) : Prop :=
  forall h s r,
    match net w h s r with
    | PostRaises e => isinstance e Exception = true
    | PostResponse _ (Raise e) => isinstance e Exception = true
    | PostResponse _ (Return _) => True
    end.

(** A string that [joinpath] appends below its left operand: no root and
    no [".."] component. *)
Definition stays_below (s : string) : Prop :=
  fst (parse_parts s) = "" /\ ~ In ".." (snd (parse_parts s)).

Definition supplied (o : option string) : bool :=
  match o with Some _ => true | None => false end.

(** *** Specifications of computations *)

(** From every trace, [m] adds events that all satisfy [P]; when it
    returns, the value satisfies [Q]; when it raises, the exception
    satisfies [E]. *)
Definition ends {A} (E : exn -> Prop) (P : event -> Prop) (Q : A -> Prop)
    (m : M A) : Prop :=
  forall t, exists evs,
    snd (m t) = t ++ evs /\ Forall P evs /\
    match fst (m t) with
    | Return a => Q a
    | Raise e => E e
    end.

Definition never : exn -> Prop := fun _ => False.

Definition anything : exn -> Prop := fun _ => True.

Definition derives_from (c : exn) : exn -> Prop :=
  fun e => isinstance e c = true.

(** *** Sample worlds *)

Module Sample.

Definition summary (text : string) : node :=
  Dir [("sed-summary", Dir [("result.json", File (Some text))])].

(** Two devices below the base directory, and a look-alike tree in
    [/tmp]. *)
Definition accounts : node :=
  Dir [("devA", Dir [("2024-01-01", summary "a");
                     ("not-a-date", summary "x");
                     ("notes.txt", File (Some "n"))]);
       ("README", File (Some "r"));
       ("devB", Dir [("2024-01-02", summary "b");
                     ("2024-01-03", Dir [])])].

Definition disk : node :=
  Dir [("Users", Dir [("kaya.matsumoto", Dir [("data",
          Dir [("data_accounts", accounts)])])]);
       ("tmp", Dir [("2024-01-01", summary "elsewhere")])].

(** The server accepts [devA] and answers 500 to everything else. *)
Definition server (_ : list request) (_ : ClientSession) (r : request)
  : post_outcome :=
  if String.eqb (req_device_id r) "devA"
  then PostResponse 200 (Return "ok")
  else PostResponse 500 (Return "boom").

Definition w : world := mkWorld disk server.

(** A remote end where the first request is interrupted by the
    cancellation of the running task. *)
Definition cancelled : world :=
  mkWorld disk (fun _ _ _ => PostRaises CancelledError).

(** The same server, with no base directory on the disk. *)
Definition bare : world := mkWorld (Dir [("tmp", Dir [])]) server.

Definition uploader : SEDSummaryUploader :=
  mkUploader DEFAULT_UPLOAD_URL BASE_DIR true None.

Definition session : ClientSession := mkSession SslTrue.

Definition devA_path : Path :=
  BASE_DIR // "devA" // "2024-01-01" // "sed-summary" // "result.json".

Definition devB_path : Path :=
  BASE_DIR // "devB" // "2024-01-02" // "sed-summary" // "result.json".

End Sample.

(** The triples the path convention describes: [device_id] is listed in
    [base] and is a directory, [date] is listed in it, is a directory and
    parses as a date, and the summary file below it exists. *)
Definition is_summary_triple (fs : node) (base : Path)
    (device_id date : string) (file_path : Path) : Prop :=
  In device_id (listdir fs base) /\
  path_is_dir fs (child base device_id) = Return true /\
  In date (listdir fs (child base device_id)) /\
  path_is_dir fs (child (child base device_id) date) = Return true /\
  parses date = true /\
  file_path = summary_path (child (child base device_id) date) /\
  path_exists fs file_path = Return true.

(** *** Classes of events *)

Definition path_of (c : syscall) : Path :=
  match c with SysStat p | SysListdir p | SysOpen p => p end.

Definition discovery_message (m : message) : bool :=
  match m with
  | MsgBaseDirMissing _ | MsgFound _ _ _ | MsgTotalFound _ => true
  | _ => false
  end.

(** What discovery under [base] may do: log its own records, and look at
    paths below [base]. *)
Definition discovery_event (base : Path) (ev : event) : Prop :=
  match ev with
  | Log _ m => discovery_message m = true
  | Fs c => below base (path_of c)
  | _ => False
  end.

(** What one upload of [file_path] may do: log, open that file, post,
    read the response body. *)
Definition upload_event (file_path : Path) (ev : event) : Prop :=
  match ev with
  | Log _ _ | Post _ _ | ReadBody => True
  | Fs c => c = SysOpen file_path
  | _ => False
  end.

(** Events whose file-system calls stay below [base]. *)
Definition confined (base : Path) (ev : event) : Prop :=
  match ev with
  | Fs c => below base (path_of c)
  | _ => True
  end.

(** Reading the body of the response either gives its text or fails with
    an exception deriving from [Exception]. *)
Definition readable (text : outcome string) : Prop :=
  match text with
  | Return _ => True
  | Raise e => isinstance e Exception = true
  end.

Definition count (b : bool) (outcomes : list bool) : nat :=
  List.length (filter (Bool.eqb b) outcomes).

(** What [main] does before it looks at the pair of arguments. *)
Definition preamble (args : Namespace) : list event :=
  if arg_verbose args then [SetLevel DEBUG] else [].

(** *** The course of the uploads *)

(** The steps of an upload that the trace shows: its start record, the
    request, and the record that ends it (success, HTTP failure, or one of
    the four error records). *)
Inductive mark : Type :=
| Started (device_id date : string)
| Sent (device_id date : string)
| Ended.

Definition terminal (m : message) : bool :=
  match m with
  | MsgUploadOk _ _ | MsgUploadFailed _ _ _ _ | MsgConnectionError _ _ _
  | MsgJSONError _ _ _ | MsgFileNotFound _ | MsgUnexpected _ _ _ => true
  | _ => false
  end.

Fixpoint marks (t : list event) : list mark :=
  match t with
  | [] => []
  | Log _ (MsgUploadStart d date) :: t' => Started d date :: marks t'
  | Log _ m :: t' => if terminal m then Ended :: marks t' else marks t'
  | Post _ r :: t' => Sent (req_device_id r) (req_date r) :: marks t'
  | _ :: t' => marks t'
  end.

(** The uploads of [files] run one after the other, in the order of the
    list: each starts, sends at most one request and ends before the next
    one starts. *)
Inductive in_turn : list (string * string * Path) -> list mark -> Prop :=
| in_turn_nil : in_turn [] []
| in_turn_cons (d date : string) (p : Path) (files : list (string * string * Path))
               (sent rest : list mark) :
    sent = [] \/ sent = [Sent d date] ->
    in_turn files rest ->
    in_turn ((d, date, p) :: files) (Started d date :: sent ++ Ended :: rest).

(** *** The characters of a date *)

Definition ascii_digit (c : ascii) : bool :=
  ((48 <=? byte c) && (byte c <=? 57))%N.

(** The bytes of a string the pattern [%Y-%m-%d] can match: ASCII
    digits, the hyphen, the space, and the bytes of the characters
    outside ASCII, where the other decimal digits are. *)
Definition date_char (c : ascii) : bool :=
  ascii_digit c || Ascii.eqb c "-" || Ascii.eqb c " " || (128 <=? byte c)%N.

Fixpoint all_chars (ok : ascii -> bool) (s : string) : bool :=
  match s with
  | EmptyString => true
  | String c r => ok c && all_chars ok r
  end.

(** *** Finer classes of events *)

(** Discovery under [base] only logs its own records and only asks for
    the status or the listing of paths below [base]. *)
Definition looks_only (base : Path) (ev : event) : Prop :=
  match ev with
  | Log _ m => discovery_message m = true
  | Fs (SysStat p) | Fs (SysListdir p) => below base p
  | _ => False
  end.

(** One upload of [file_path] through [session]: it logs, opens that
    file, and its request, sent through that session, is the form built
    from the text of the file. *)
Definition upload_step (w : world) (self : SEDSummaryUploader)
    (session : ClientSession) (device_id date : string) (file_path : Path)
    (ev : event) : Prop :=
  match ev with
  | Log _ _ | ReadBody => True
  | Fs c => c = SysOpen file_path
  | Post s r =>
      s = session /\
      exists content,
        stat (fs w) file_path = Found (File (Some content)) /\
        r = form_data self content device_id date
  | _ => False
  end.

(** What a run of the uploader [self] may do: log, look at the file
    system, open and close the session its TLS setting asks for, and send
    forms to its URL through that session. *)
Definition run_step (self : SEDSummaryUploader) (ev : event) : Prop :=
  match ev with
  | Log _ _ | Fs _ | ReadBody | SessionClose => True
  | SessionOpen s => s = mkSession (connector_param self)
  | Post s r =>
      s = mkSession (connector_param self) /\
      req_url r = upload_url self /\
      req_filename r = "result.json" /\
      req_content_type r = "application/json" /\
      req_timeout r = 60%Z
  | _ => False
  end.

Definition no_session (ev : event) : Prop :=
  match ev with
  | SessionOpen _ | SessionClose => False
  | _ => True
  end.

(** The sessions of a trace: [true] for an opening, [false] for a
    closing. *)
Fixpoint sessions (t : list event) : list bool :=
  match t with
  | [] => []
  | SessionOpen _ :: t' => true :: sessions t'
  | SessionClose :: t' => false :: sessions t'
  | _ :: t' => sessions t'
  end.

(** A name that is one path component: not empty, not ["."], and
    without a slash. *)
Definition plain_segment (s : string) : Prop :=
  s <> "" /\ s <> "." /\
  all_chars (fun c => negb (Ascii.eqb c "/")) s = true.


(** [l] is [l'] with some items left out. *)
Inductive subseq {A : Type} : list A -> list A -> Prop :=
| subseq_nil : subseq [] []
| subseq_skip (x : A) (l l' : list A) : subseq l l' -> subseq l (x :: l')
| subseq_take (x : A) (l l' : list A) :
    subseq l l' -> subseq (x :: l) (x :: l').

(** The device and the date a request is for. *)
Definition addressed (r : request) : string * string :=
  (req_device_id r, req_date r).

Fixpoint sent_of (ms : list mark) : list (string * string) :=
  match ms with
  | [] => []
  | Sent d date :: ms' => (d, date) :: sent_of ms'
  | _ :: ms' => sent_of ms'
  end.

(** Sessions and requests of a trace that use the TLS setting [ssl]. *)
Definition over_tls (ssl : ssl_param) (ev : event) : Prop :=
  match ev with
  | SessionOpen s | Post s _ => connector_ssl s = ssl
  | _ => True
  end.

(** What an invocation with the arguments [args] may do: print,
    configure logging, and the steps of a run of the uploader it builds. *)
Definition invocation_step (args : Namespace) (ev : event) : Prop :=
  match ev with
  | Stdout _ | SetLevel _ | BasicConfig _ => True
  | _ => run_step (mkUploader (arg_upload_url args) BASE_DIR true None) ev
  end.

(** *** Limits on paths *)


(** A name of 256 bytes. *)
Definition overlong : string := string_of_list_ascii (repeat "a"%char 256).

(** The sample server answers every request. *)
Ltac sample_server_answers :=
  unfold fails_with_exceptions; intros ? ? ?; simpl; unfold Sample.server;
  match goal with
  | |- context [String.eqb ?a ?b] => destruct (String.eqb a b)
  end; exact I.

(* ------------------------------------------------------------------ *)
(** * Properties *)

(** ** Paths *)

Lemma name_child (p : Path) (n : string) : name (child p n) = n.
Proof.
  unfold name, child; simpl.
  induction (parts p) as [|c cs IH]; simpl; [reflexivity|].
  destruct (cs ++ [n]) eqn:E; [destruct cs; discriminate|exact IH].
Qed.

Lemma summary_path_parts (p : Path) :
  summary_path p = mkPath (root p) (parts p ++ ["sed-summary"; "result.json"]).
Proof.
  unfold summary_path, joinpath; simpl.
  rewrite <- app_assoc. reflexivity.
Qed.

Lemma below_refl (p : Path) : below p p.
Proof.
  split; [reflexivity|]. exists []. rewrite app_nil_r. split; auto.
Qed.

Lemma below_child (base p : Path) (n : string) :
  below base p -> special_entry n = false -> below base (child p n).
Proof.
  intros [Hr [suf [Hp Hs]]] Hn. split; [exact Hr|].
  exists (suf ++ [n]). simpl. rewrite Hp, app_assoc. split; [reflexivity|].
  intros Hin. apply in_app_or in Hin. destruct Hin as [Hin|[Hin|[]]]; [auto|].
  subst n. discriminate.
Qed.

Lemma below_summary_path (base p : Path) :
  below base p -> below base (summary_path p).
Proof.
  intros [Hr [suf [Hp Hs]]]. rewrite summary_path_parts.
  split; [exact Hr|]. exists (suf ++ ["sed-summary"; "result.json"]). simpl.
  rewrite Hp, app_assoc. split; [reflexivity|].
  intros Hin. apply in_app_or in Hin.
  destruct Hin as [Hin|[Hin|[Hin|[]]]]; [auto|discriminate|discriminate].
Qed.

Lemma below_joinpath (base p : Path) (s : string) :
  below base p -> stays_below s -> below base (p // s).
Proof.
  intros [Hr [suf [Hp Hs]]] [Hroot Hdots]. unfold joinpath.
  destruct (parse_parts s) as [r cs]; simpl in *. subst r. simpl.
  split; [exact Hr|]. exists (suf ++ cs). simpl.
  rewrite Hp, app_assoc. split; [reflexivity|].
  intros Hin. apply in_app_or in Hin. tauto.
Qed.

Lemma entry_names_plain (es : list (string * node)) (n : string) :
  In n (entry_names es) -> special_entry n = false.
Proof.
  unfold entry_names. rewrite filter_In. intros [_ H].
  apply andb_true_iff in H. destruct H as [H _].
  now apply negb_true_iff in H.
Qed.

Lemma listdir_plain (fs : node) (p : Path) (n : string) :
  In n (listdir fs p) -> special_entry n = false.
Proof.
  unfold listdir. destruct (stat fs p) as [[|es]| | |]; simpl; try tauto.
  apply entry_names_plain.
Qed.

Lemma listdir_short (fs : node) (p : Path) (n : string) :
  In n (listdir fs p) -> String.length n <= NAME_MAX.
Proof.
  unfold listdir. destruct (stat fs p) as [[|es]| | |]; simpl; try tauto.
  unfold entry_names. rewrite filter_In. intros [_ H].
  apply andb_true_iff in H. destruct H as [_ H]. now apply Nat.leb_le in H.
Qed.

(** ** Resolution *)

(** Once a prefix of the components is resolved, the rest is resolved
    from the node it names. *)
Lemma walk_app (cs : list string) :
  forall anc cur n, walk anc cur cs = Found n ->
  exists anc', forall ds, walk anc cur (cs ++ ds) = walk anc' n ds.
Proof.
  induction cs as [|c cs IH]; intros anc cur n H; simpl in *.
  - injection H as <-. exists anc. reflexivity.
  - destruct cur as [text|es]; [discriminate|].
    destruct (String.eqb c "..").
    + destruct anc as [|up anc']; eapply IH; eassumption.
    + destruct (NAME_MAX <? String.length c)%nat; [discriminate|].
      destruct (lookup c es) as [x|]; [|discriminate].
      eapply IH; eassumption.
Qed.

(** Names within [NAME_MAX] are never refused. *)
Lemma walk_short (cs : list string) :
  Forall (fun c => String.length c <= NAME_MAX) cs ->
  forall anc cur, walk anc cur cs <> ENAMETOOLONG.
Proof.
  induction 1 as [|c cs Hc _ IH]; intros anc cur; simpl; [discriminate|].
  destruct cur as [text|es]; [discriminate|].
  destruct (String.eqb c ".."); [destruct anc; apply IH|].
  apply Nat.ltb_ge in Hc. rewrite Hc.
  destruct (lookup c es); [apply IH|discriminate].
Qed.

Lemma stat_below_dir (fs : node) (p : Path) (es : list (string * node))
      (ds : list string) :
  stat fs p = Found (Dir es) ->
  Forall (fun c => String.length c <= NAME_MAX) ds ->
  stat fs (mkPath (root p) (parts p ++ ds)) <> ENAMETOOLONG.
Proof.
  unfold stat. simpl. intros Hp Hds.
  destruct (walk_app _ _ _ Hp) as (anc' & ->). apply walk_short, Hds.
Qed.

(** Below a directory, a listed entry and the summary file can be asked
    for without an error. *)
Lemma is_dir_stat (fs : node) (p : Path) :
  path_is_dir fs p = Return true -> exists es, stat fs p = Found (Dir es).
Proof.
  unfold path_is_dir.
  destruct (stat fs p) as [[text|es]| | |]; try discriminate. eauto.
Qed.

Lemma is_dir_child_returns (fs : node) (p : Path) (n : string) :
  path_is_dir fs p = Return true -> In n (listdir fs p) ->
  path_is_dir fs (child p n) <> Raise OSError.
Proof.
  intros Hd Hn Hraise. destruct (is_dir_stat _ _ Hd) as [es Hp].
  apply (@stat_below_dir fs p es [n] Hp).
  - constructor; [|constructor]. eapply listdir_short; eassumption.
  - unfold path_is_dir, child in Hraise.
    destruct (stat fs _) as [[|]| | |]; try discriminate. reflexivity.
Qed.

Lemma exists_summary_returns (fs : node) (p : Path) :
  path_is_dir fs p = Return true ->
  path_exists fs (summary_path p) <> Raise OSError.
Proof.
  intros Hd Hraise. destruct (is_dir_stat _ _ Hd) as [es Hp].
  apply (@stat_below_dir fs p es ["sed-summary"; "result.json"] Hp).
  - repeat constructor; unfold NAME_MAX; simpl; lia.
  - rewrite summary_path_parts in Hraise. unfold path_exists in Hraise.
    destruct (stat fs _) as [[|]| | |]; try discriminate. reflexivity.
Qed.



(** ** Rules for [ends] *)

Lemma Forall_app_intro {X} (P : X -> Prop) (l1 l2 : list X) :
  Forall P l1 -> Forall P l2 -> Forall P (l1 ++ l2).
Proof. intros. apply Forall_app. auto. Qed.

#[local] Hint Resolve Forall_app_intro : core.

(** With no exception allowed, the computation returns. *)
Lemma ends_never {A} (P : event -> Prop) (Q : A -> Prop) (m : M A) :
  ends never P Q m ->
  forall t, exists a evs, m t = (Return a, t ++ evs) /\ Q a /\ Forall P evs.
Proof.
  intros H t. destruct (H t) as (evs & E & Hevs & Hr).
  destruct (m t) as [[a|e] t']; simpl in *; [|contradiction].
  subst t'. exists a, evs. auto.
Qed.

Section Rules.

Context {A B : Type}.
Variable E : exn -> Prop.
Variable P : event -> Prop.

Lemma ends_ret (Q : A -> Prop) (a : A) : Q a -> ends E P Q (ret a).
Proof.
  intros H t. exists []. rewrite app_nil_r. simpl. auto.
Qed.

Lemma ends_raise (Q : A -> Prop) (e : exn) : E e -> ends E P Q (raise e).
Proof.
  intros H t. exists []. rewrite app_nil_r. simpl. auto.
Qed.

Lemma ends_bind (Q : A -> Prop) (R : B -> Prop) (m : M A) (f : A -> M B) :
  ends E P Q m -> (forall a, Q a -> ends E P R (f a)) ->
  ends E P R (bind m f).
Proof.
  intros Hm Hf t. unfold bind.
  destruct (Hm t) as (evs & Et & Hevs & Hr).
  destruct (m t) as [[a|e] t']; simpl in *; subst t'.
  - destruct (Hf a Hr (t ++ evs)) as (evs' & Et' & Hevs' & Hr').
    exists (evs ++ evs'). rewrite app_assoc. auto.
  - exists evs. auto.
Qed.

Lemma ends_weaken (E' : exn -> Prop) (P' : event -> Prop)
      (Q Q' : A -> Prop) (m : M A) :
  ends E' P' Q m ->
  (forall e, E' e -> E e) -> (forall ev, P' ev -> P ev) ->
  (forall a, Q a -> Q' a) ->
  ends E P Q' m.
Proof.
  intros Hm HE HP HQ t. destruct (Hm t) as (evs & Et & Hevs & Hr).
  exists evs. repeat split; auto.
  - eapply Forall_impl; eauto.
  - destruct (fst (m t)); auto.
Qed.

(** An exception of the block is handled by the first clause that
    matches its class; one that no clause matches propagates. *)
Lemma ends_try_except (E' : exn -> Prop) (Q : A -> Prop) (m : M A)
      (clauses : list (exn * (exn -> M A))) :
  ends E' P Q m ->
  Forall (fun cl => forall e, ends E P Q (snd cl e)) clauses ->
  (forall e, E' e ->
     find (fun cl => isinstance e (fst cl)) clauses = None -> E e) ->
  ends E P Q (try_except m clauses).
Proof.
  intros Hm Hcl Hrest t. unfold try_except.
  destruct (Hm t) as (evs & Et & Hevs & Hr).
  destruct (m t) as [[a|e] t']; simpl in *; subst t'.
  - exists evs. auto.
  - destruct (find _ clauses) as [cl|] eqn:Ef.
    + apply find_some in Ef. destruct Ef as [Hin _].
      rewrite Forall_forall in Hcl.
      destruct (Hcl cl Hin e (t ++ evs)) as (evs' & Et' & Hevs' & Hr').
      exists (evs ++ evs'). rewrite app_assoc. auto.
    + exists evs. simpl. auto.
Qed.

End Rules.

Lemma ends_emit (E : exn -> Prop) (P : event -> Prop) (Q : unit -> Prop)
      (ev : event) :
  P ev -> Q tt -> ends E P Q (emit ev).
Proof.
  intros H HQ t. exists [ev]. simpl. auto.
Qed.

(** One event is emitted and the computation goes on. *)
Ltac logs :=
  eapply ends_bind;
  [apply ends_emit with (Q := fun _ => True); simpl; auto|];
  intros _ _.

(** A loop keeps an invariant of the variables it updates; the invariant
    may mention the items already passed. *)
Lemma ends_for_each {X S} (E : exn -> Prop) (P : event -> Prop)
      (I : list X -> S -> Prop) (body : S -> X -> M S) (xs : list X) :
  (forall passed x s, In x xs -> I passed s ->
     ends E P (I (passed ++ [x])) (body s x)) ->
  forall passed s, I passed s ->
    ends E P (I (passed ++ xs)) (for_each xs s body).
Proof.
  induction xs as [|x xs IH]; intros Hbody passed s Hs; simpl.
  - rewrite app_nil_r. apply ends_ret, Hs.
  - eapply ends_bind; [apply (Hbody passed x s); simpl; auto|].
    intros s' Hs'.
    replace (passed ++ x :: xs) with ((passed ++ [x]) ++ xs)
      by (rewrite <- app_assoc; reflexivity).
    apply IH; [|exact Hs'].
    intros passed' y s'' Hy. apply Hbody. simpl; auto.
Qed.

Lemma ends_with_session {A} (E : exn -> Prop) (P : event -> Prop)
      (Q : A -> Prop) (ssl : ssl_param) (block : ClientSession -> M A) :
  P (SessionOpen (mkSession ssl)) -> P SessionClose ->
  ends E P Q (block (mkSession ssl)) ->
  ends E P Q (with_session ssl block).
Proof.
  intros Ho Hc Hb t. unfold with_session, bind, emit.
  destruct (Hb (t ++ [SessionOpen (mkSession ssl)]))
    as (evs & Et & Hevs & Hr).
  destruct (block _ _) as [r t'] eqn:Eb; simpl in *; subst t'.
  exists ([SessionOpen (mkSession ssl)] ++ evs ++ [SessionClose]).
  rewrite !app_assoc. repeat split; auto.
Qed.

(** ** File-system calls *)

Lemma ends_ended {A} (E : exn -> Prop) (P : event -> Prop) (Q : A -> Prop)
      (o : outcome A) :
  match o with Return a => Q a | Raise e => E e end ->
  ends E P Q (ended o).
Proof.
  intros H t. exists []. rewrite app_nil_r. simpl. auto.
Qed.

Lemma path_exists_raises (fs : node) (p : Path) (e : exn) :
  path_exists fs p = Raise e -> e = OSError.
Proof.
  unfold path_exists. destruct (stat fs p) as [[|]| | |]; congruence.
Qed.

Lemma path_is_dir_raises (fs : node) (p : Path) (e : exn) :
  path_is_dir fs p = Raise e -> e = OSError.
Proof.
  unfold path_is_dir. destruct (stat fs p) as [[|]| | |]; congruence.
Qed.

Section Calls.

Variable w : world.
Variable E : exn -> Prop.
Variable P : event -> Prop.

Lemma exists_ends (p : Path) :
  P (Fs (SysStat p)) ->
  (path_exists (fs w) p = Raise OSError -> E OSError) ->
  ends E P (fun b => path_exists (fs w) p = Return b) (exists_ w p).
Proof.
  intros H HE. unfold exists_. logs. apply ends_ended.
  destruct (path_exists (fs w) p) as [b|e] eqn:He; [reflexivity|].
  rewrite (path_exists_raises _ _ He) in *. auto.
Qed.

Lemma is_dir_ends (p : Path) :
  P (Fs (SysStat p)) ->
  (path_is_dir (fs w) p = Raise OSError -> E OSError) ->
  ends E P (fun b => path_is_dir (fs w) p = Return b) (is_dir w p).
Proof.
  intros H HE. unfold is_dir. logs. apply ends_ended.
  destruct (path_is_dir (fs w) p) as [b|e] eqn:He; [reflexivity|].
  rewrite (path_is_dir_raises _ _ He) in *. auto.
Qed.

Lemma iterdir_ends (p : Path) :
  P (Fs (SysListdir p)) ->
  match stat (fs w) p with
  | Found (Dir _) => True
  | Found (File _) | ENOTDIR => E NotADirectoryError
  | ENOENT => E FileNotFoundError
  | ENAMETOOLONG => E OSError
  end ->
  ends E P (eq (map (child p) (listdir (fs w) p))) (iterdir w p).
Proof.
  intros H Hs. unfold iterdir, listdir. logs.
  destruct (stat (fs w) p) as [[text|es]| | |];
    first [apply ends_ret; reflexivity | apply ends_raise; exact Hs].
Qed.

Lemma read_text_ends (p : Path) :
  P (Fs (SysOpen p)) ->
  (forall e, derives_from OSError e \/ e = UnicodeDecodeError -> E e) ->
  ends E P (fun text => stat (fs w) p = Found (File (Some text)))
       (read_text w p).
Proof.
  intros H HE. unfold read_text. logs.
  destruct (stat (fs w) p) as [[[text|]|es]| | |];
    first [apply ends_ret; reflexivity
          | apply ends_raise, HE; first [right; reflexivity | left; reflexivity]].
Qed.

End Calls.

(** ** Discovery *)

Section Discovery.

Variable w : world.
Variable E : exn -> Prop.

Lemma scan_date_dir_ends (base : Path) (device_id : string)
      (acc : list (string * string * Path)) (date_dir : Path) :
  below base date_dir ->
  (path_is_dir (fs w) date_dir = Raise OSError -> E OSError) ->
  ends E (discovery_event base)
       (eq (acc ++ found_in_date_dir (fs w) device_id date_dir))
       (scan_date_dir w device_id acc date_dir).
Proof.
  intros Hb HE. unfold scan_date_dir, found_in_date_dir, parses.
  eapply ends_bind; [apply is_dir_ends; [exact Hb|exact HE]|].
  intros d Hd. rewrite Hd. destruct d; simpl.
  2: { apply ends_ret. now rewrite app_nil_r. }
  destruct (strptime (name date_dir)); simpl.
  2: { apply ends_ret. now rewrite app_nil_r. }
  eapply ends_bind.
  { apply exists_ends; [simpl; apply below_summary_path, Hb|].
    intros Hraise. exfalso. exact (exists_summary_returns _ _ Hd Hraise). }
  intros e He. rewrite He. destruct e; simpl.
  - logs. apply ends_ret. reflexivity.
  - apply ends_ret. now rewrite app_nil_r.
Qed.

Lemma scan_device_dir_ends (base : Path)
      (acc : list (string * string * Path)) (device_dir : Path) :
  below base device_dir ->
  (path_is_dir (fs w) device_dir = Raise OSError -> E OSError) ->
  ends E (discovery_event base)
       (eq (acc ++ found_in_device_dir (fs w) device_dir))
       (scan_device_dir w acc device_dir).
Proof.
  intros Hb HE. unfold scan_device_dir, found_in_device_dir.
  eapply ends_bind; [apply is_dir_ends; [exact Hb|exact HE]|].
  intros d Hd. rewrite Hd. destruct d; simpl.
  2: { apply ends_ret. now rewrite app_nil_r. }
  eapply ends_bind.
  { apply iterdir_ends; [exact Hb|].
    destruct (is_dir_stat _ _ Hd) as [es ->]. exact I. }
  intros date_dirs <-.
  eapply ends_weaken with (E' := E) (P' := discovery_event base);
    [|auto|auto|].
  - apply ends_for_each
      with (I := fun passed s =>
                   s = acc ++ flat_map
                         (found_in_date_dir (fs w) (name device_dir)) passed)
           (passed := []).
    + intros passed x s Hx ->.
      apply in_map_iff in Hx. destruct Hx as (n & <- & Hn).
      eapply ends_weaken;
        [apply scan_date_dir_ends with (base := base)| | |]; auto.
      * apply below_child; [exact Hb|].
        eapply listdir_plain; eauto.
      * intros Hraise. exfalso.
        exact (is_dir_child_returns _ _ _ Hd Hn Hraise).
      * intros a <-. rewrite flat_map_app. simpl.
        now rewrite app_nil_r, app_assoc.
    + simpl. now rewrite app_nil_r.
  - intros a ->. reflexivity.
Qed.

(** Bulk discovery looks only below the base directory, and what it
    returns is [discovered]; it raises only when the base path cannot be
    asked for, or exists and is not a directory. *)
Lemma find_all_ends (self : SEDSummaryUploader) :
  (path_exists (fs w) (base_dir self) = Raise OSError -> E OSError) ->
  (path_exists (fs w) (base_dir self) = Return true ->
   path_is_dir (fs w) (base_dir self) = Return false ->
   E NotADirectoryError) ->
  ends E (discovery_event (base_dir self))
       (eq (discovered (fs w) (base_dir self)))
       (find_all_summary_files w self).
Proof.
  intros HO HE. unfold find_all_summary_files, discovered.
  set (base := base_dir self) in *.
  eapply ends_bind; [apply exists_ends; [simpl; apply below_refl|exact HO]|].
  intros e Hex. destruct e; simpl.
  - assert (Hdir : path_is_dir (fs w) base = Return true \/
                   (path_is_dir (fs w) base = Return false /\
                    exists text, stat (fs w) base = Found (File text))).
    { unfold path_exists, path_is_dir in *.
      destruct (stat (fs w) base) as [[text|es]| | |]; try discriminate; eauto. }
    eapply ends_bind.
    { apply iterdir_ends; [simpl; apply below_refl|].
      destruct Hdir as [Hd|[Hd [text ->]]];
        [destruct (is_dir_stat _ _ Hd) as [es ->]; exact I|].
      apply HE; assumption. }
    intros device_dirs <-.
    assert (Hd : path_is_dir (fs w) base = Return true \/
                 listdir (fs w) base = []).
    { destruct Hdir as [Hd|[_ [text Hs]]]; [left; exact Hd|right].
      unfold listdir. now rewrite Hs. }
    eapply ends_bind.
    { apply ends_for_each
        with (I := fun passed s =>
                     s = flat_map (found_in_device_dir (fs w)) passed)
             (passed := []); [|reflexivity].
      intros passed x s Hx ->.
      apply in_map_iff in Hx. destruct Hx as (n & <- & Hn).
      destruct Hd as [Hd|Hd]; [|rewrite Hd in Hn; destruct Hn].
      eapply ends_weaken;
        [apply scan_device_dir_ends with (base := base)| | |]; auto.
      - apply below_child; [apply below_refl|].
        eapply listdir_plain; eauto.
      - intros Hraise. exfalso.
        exact (is_dir_child_returns _ _ _ Hd Hn Hraise).
      - intros a <-. rewrite flat_map_app. simpl.
        now rewrite app_nil_r. }
    simpl. intros files ->. logs. apply ends_ret. reflexivity.
  - logs. apply ends_ret.
    unfold listdir, path_exists in *.
    destruct (stat (fs w) base) as [[|]| | |]; try discriminate; reflexivity.
Qed.

End Discovery.

Lemma holds_true (o : outcome bool) : holds o = true <-> o = Return true.
Proof.
  destruct o as [[|]|e]; simpl; split; congruence.
Qed.

Lemma in_found_in_date_dir (fs : node) (device_id : string) (date_dir : Path)
      (d t : string) (p : Path) :
  In (d, t, p) (found_in_date_dir fs device_id date_dir) <->
  d = device_id /\ t = name date_dir /\ p = summary_path date_dir /\
  path_is_dir fs date_dir = Return true /\ parses t = true /\
  path_exists fs p = Return true.
Proof.
  unfold found_in_date_dir. split.
  - destruct (holds (path_is_dir fs date_dir)) eqn:Hd;
      destruct (parses (name date_dir)) eqn:Hp;
      destruct (holds (path_exists fs (summary_path date_dir))) eqn:He; simpl;
      try contradiction.
    intros [[= <- <- <-]|[]].
    apply holds_true in Hd, He. auto 10.
  - intros (-> & -> & -> & H1 & H2 & H3).
    apply holds_true in H1, H3. rewrite H1, H2, H3. simpl. auto.
Qed.

Lemma in_discovered (fs : node) (base : Path) (d t : string) (p : Path) :
  In (d, t, p) (discovered fs base) <-> is_summary_triple fs base d t p.
Proof.
  unfold discovered, is_summary_triple. rewrite in_flat_map. split.
  - intros (device_dir & Hdev & Hin).
    apply in_map_iff in Hdev. destruct Hdev as (n & <- & Hn).
    unfold found_in_device_dir in Hin.
    destruct (holds (path_is_dir fs (child base n))) eqn:Hd; [|destruct Hin].
    apply holds_true in Hd.
    apply in_flat_map in Hin. destruct Hin as (date_dir & Hdate & Hin).
    apply in_map_iff in Hdate. destruct Hdate as (n' & <- & Hn').
    apply in_found_in_date_dir in Hin.
    rewrite !name_child in Hin.
    destruct Hin as (-> & -> & -> & H1 & H2 & H3). auto 10.
  - intros (Hn & Hd & Hn' & Hd' & Hp & -> & He).
    exists (child base d). split; [apply in_map, Hn|].
    unfold found_in_device_dir. apply holds_true in Hd. rewrite Hd.
    apply in_flat_map.
    exists (child (child base d) t). split; [apply in_map, Hn'|].
    apply in_found_in_date_dir. rewrite !name_child.
    apply holds_true in Hd. auto 10.
Qed.


(** ** Claims *)



(** C5.  When the base directory does not exist, bulk discovery returns
    the empty list after one existence check and one warning, and the
    batch run that follows returns all-zero counts. *)
Theorem missing_base_dir_is_empty (w : world) (self : SEDSummaryUploader)
        (t : list event) :
  path_exists (fs w) (base_dir self) = Return false ->
  find_all_summary_files w self t =
    (Return [], t ++ [Fs (SysStat (base_dir self));
                      Log WARNING (MsgBaseDirMissing (base_dir self))]) /\
  upload_all_summaries w self t =
    (Return (mkResult 0 0 0),
     t ++ [Fs (SysStat (base_dir self));
           Log WARNING (MsgBaseDirMissing (base_dir self));
           Log WARNING MsgNothingToUpload]).
Proof.
  intros He.
  assert (H : find_all_summary_files w self t =
    (Return [], t ++ [Fs (SysStat (base_dir self));
                      Log WARNING (MsgBaseDirMissing (base_dir self))])).
  { unfold find_all_summary_files, exists_, bind, emit, ret, log, ended. simpl.
    rewrite He. simpl. unfold emit. rewrite <- app_assoc. reflexivity. }
  split; [exact H|].
  unfold upload_all_summaries, bind. rewrite H.
  unfold log, emit, ret. simpl. rewrite <- app_assoc. reflexivity.
Qed.

Lemma missing_base_dir_is_empty_witness :
  find_all_summary_files Sample.bare Sample.uploader [] =
    (Return [], [] ++ [Fs (SysStat (base_dir Sample.uploader));
                       Log WARNING (MsgBaseDirMissing (base_dir Sample.uploader))]) /\
  upload_all_summaries Sample.bare Sample.uploader [] =
    (Return (mkResult 0 0 0),
     [] ++ [Fs (SysStat (base_dir Sample.uploader));
            Log WARNING (MsgBaseDirMissing (base_dir Sample.uploader));
            Log WARNING MsgNothingToUpload]).
Proof.
  apply (@missing_base_dir_is_empty Sample.bare Sample.uploader []).
  reflexivity.
Defined.

(** ** One upload *)

Lemma posts_app (t t' : list event) : posts (t ++ t') = posts t ++ posts t'.
Proof.
  induction t as [|ev t IH]; simpl; [reflexivity|].
  destruct ev; simpl; rewrite ?IH; reflexivity.
Qed.

Lemma derives_from_OSError (e : exn) :
  derives_from OSError e -> derives_from Exception e.
Proof. unfold derives_from. destruct e; vm_compute; intros H; congruence. Qed.

(** Every exception deriving from [Exception] finds its clause, and each
    clause logs one error and gives [False]. *)
Lemma upload_clauses_catch (d date : string) (p : Path) (e : exn) :
  isinstance e Exception = true ->
  exists cl m,
    find (fun cl => isinstance e (fst cl)) (upload_clauses d date p) = Some cl /\
    terminal m = true /\
    forall t, snd cl e t = (Return false, t ++ [Log ERROR m]).
Proof.
  intros He. unfold upload_clauses. simpl find.
  destruct (isinstance e ClientError);
    [|destruct (isinstance e JSONDecodeError);
      [|destruct (isinstance e FileNotFoundError); [|rewrite He]]];
    eexists; eexists; (split; [reflexivity|]);
    (split; [|intros t; reflexivity]); reflexivity.
Qed.

Lemma upload_clauses_miss (d date : string) (p : Path) (e : exn) :
  isinstance e Exception = false ->
  find (fun cl => isinstance e (fst cl)) (upload_clauses d date p) = None.
Proof. destruct e; vm_compute; intros H; congruence. Qed.

Section Upload.

Variable w : world.
Variable self : SEDSummaryUploader.
Variable session : ClientSession.
Variables device_id date : string.
Variable file_path : Path.

Lemma post_ends (r : request) :
  fails_with_exceptions w ->
  ends (derives_from Exception) (upload_event file_path)
       (fun response => readable (body response))
       (post w session r).
Proof.
  intros Hw t. unfold post. specialize (Hw (posts t) session r).
  destruct (net w (posts t) session r) as [e|st [text|e]];
    exists [Post session r]; simpl;
    (split; [reflexivity|]); (split; [repeat constructor|]); exact Hw.
Qed.

Lemma response_text_ends (response : ClientResponse) :
  readable (body response) ->
  ends (derives_from Exception) (upload_event file_path)
       (fun _ => True) (response_text response).
Proof.
  intros Hr. unfold response_text.
  logs. destruct (body response); [apply ends_ret|apply ends_raise]; auto.
Qed.

(** The [try] block fails only with exceptions deriving from
    [Exception]. *)
Lemma upload_attempt_ends :
  fails_with_exceptions w ->
  ends (derives_from Exception) (upload_event file_path) (fun _ => True)
       (upload_attempt w self session device_id date file_path).
Proof.
  intros Hw. unfold upload_attempt.
  logs. eapply ends_bind.
  { apply read_text_ends; [reflexivity|].
    intros e [He| ->]; [apply derives_from_OSError, He|reflexivity]. }
  intros file_content _.
  eapply ends_bind; [apply post_ends, Hw|].
  intros response Hr.
  destruct (status response =? 200)%Z.
  - logs. apply ends_ret. exact I.
  - eapply ends_bind; [apply response_text_ends, Hr|].
    intros error_text _. logs. apply ends_ret. exact I.
Qed.

Lemma upload_clauses_end (E : exn -> Prop) :
  Forall (fun cl => forall e, ends E (upload_event file_path)
                                   (fun _ : bool => True) (snd cl e))
         (upload_clauses device_id date file_path).
Proof.
  unfold upload_clauses.
  repeat (apply Forall_cons; [intros e; simpl;
    (eapply ends_bind;
       [apply ends_emit with (Q := fun _ => True); simpl; auto|]);
    intros _ _; apply ends_ret; exact I|]).
  apply Forall_nil.
Qed.

(** With the [except] clauses around it, nothing deriving from
    [Exception] leaves the upload. *)
Lemma upload_summary_file_ends :
  fails_with_exceptions w ->
  ends never (upload_event file_path) (fun _ => True)
       (upload_summary_file w self session device_id date file_path).
Proof.
  intros Hw. unfold upload_summary_file.
  eapply ends_try_except;
    [apply upload_attempt_ends, Hw|apply upload_clauses_end|].
  intros e He Hfind.
  destruct (upload_clauses_catch device_id date file_path e He)
    as (cl & m & Hcl & _ & _).
  congruence.
Qed.

(** In any world, the events of an upload are those of [upload_event]. *)
Lemma upload_summary_file_events :
  ends anything (upload_event file_path) (fun _ => True)
       (upload_summary_file w self session device_id date file_path).
Proof.
  unfold upload_summary_file.
  eapply ends_try_except with (E' := anything);
    [|apply upload_clauses_end|intros; exact I].
  unfold upload_attempt.
  logs. eapply ends_bind.
  { apply read_text_ends with (E := anything); [reflexivity|intros; exact I]. }
  intros file_content _. eapply ends_bind with (Q := fun _ => True).
  { intros t. unfold post.
    destruct (net w (posts t) session _);
      eexists [Post session _]; simpl;
      (split; [reflexivity|]); (split; [repeat constructor|]); exact I. }
  intros response _.
  destruct (status response =? 200)%Z.
  - logs. apply ends_ret. exact I.
  - eapply ends_bind with (Q := fun _ => True).
    { unfold response_text. logs. destruct (body response);
        [apply ends_ret|apply ends_raise]; exact I. }
    intros error_text _. logs. apply ends_ret. exact I.
Qed.

End Upload.

(** The trace of the [try] block up to the answer of the server. *)
Lemma upload_attempt_response (w : world) (self : SEDSummaryUploader)
      (session : ClientSession) (d date : string) (p : Path)
      (t : list event) (content : string) (st : Z) (text : outcome string) :
  stat (fs w) p = Found (File (Some content)) ->
  net w (posts t) session (form_data self content d date) = PostResponse st text ->
  upload_attempt w self session d date p t =
  let t' := t ++ [Log INFO (MsgUploadStart d date); Fs (SysOpen p);
                  Post session (form_data self content d date)] in
  if (st =? 200)%Z then (Return true, t' ++ [Log INFO (MsgUploadOk d date)])
  else match text with
       | Return b =>
           (Return false,
            t' ++ [ReadBody; Log ERROR (MsgUploadFailed d date st b)])
       | Raise e => (Raise e, t' ++ [ReadBody])
       end.
Proof.
  intros Hs Hn.
  unfold upload_attempt, bind, log, emit, read_text, post, response_text.
  simpl. rewrite Hs. unfold ret, bind. simpl.
  rewrite !posts_app. simpl. rewrite !app_nil_r, Hn. simpl.
  destruct (st =? 200)%Z; simpl.
  - rewrite <- !app_assoc. reflexivity.
  - unfold emit, bind. destruct text as [b|e]; simpl;
      rewrite <- !app_assoc; reflexivity.
Qed.

(** C3.  When the file is read and the server answers with a status, the
    upload returns [True] exactly when the status is 200.  For any other
    status it returns [False] whatever the body is, also when reading the
    body fails; when the body is read, its text is in the error record
    that is logged. *)
Theorem upload_succeeds_iff_200 (w : world) (self : SEDSummaryUploader)
        (session : ClientSession) (d date : string) (p : Path)
        (t : list event) (content : string) (st : Z) (text : outcome string) :
  stat (fs w) p = Found (File (Some content)) ->
  net w (posts t) session (form_data self content d date) = PostResponse st text ->
  readable text ->
  exists evs,
    upload_summary_file w self session d date p t =
      (Return (st =? 200)%Z, t ++ evs) /\
    (st <> 200%Z -> forall b, text = Return b ->
       In (Log ERROR (MsgUploadFailed d date st b)) evs).
Proof.
  intros Hs Hn Hr. unfold upload_summary_file, try_except.
  rewrite (@upload_attempt_response w self session d date p t content st text Hs Hn).
  cbv zeta.
  destruct (st =? 200)%Z eqn:Hst.
  - eexists. rewrite <- app_assoc. split; [reflexivity|].
    intros Hne. apply Z.eqb_eq in Hst. contradiction.
  - destruct text as [b|e].
    + eexists. rewrite <- app_assoc. split; [reflexivity|].
      intros _ b' [= <-]. apply in_or_app. right. simpl. auto.
    + destruct (upload_clauses_catch d date p e Hr) as (cl & m & -> & _ & Hcl).
      rewrite Hcl. eexists. rewrite <- !app_assoc. split; [reflexivity|].
      intros _ b' [=].
Qed.

Lemma upload_succeeds_iff_200_witness :
  exists evs,
    upload_summary_file Sample.w Sample.uploader Sample.session
                        "devB" "2024-01-02" Sample.devB_path [] =
      (Return (500 =? 200)%Z, [] ++ evs) /\
    (500%Z <> 200%Z -> forall b, Return "boom" = Return b ->
       In (Log ERROR (MsgUploadFailed "devB" "2024-01-02" 500 b)) evs).
Proof.
  apply (@upload_succeeds_iff_200 Sample.w Sample.uploader Sample.session
           "devB" "2024-01-02" Sample.devB_path [] "b" 500 (Return "boom"));
    [reflexivity | reflexivity | exact I].
Defined.

(** C4.  Whatever the device id, the date and the path are, and whether
    the file is missing, is a directory or does not decode, or the request
    or the reading of the response fails with an exception deriving from
    [Exception], the upload returns a boolean; it is [False] whenever the
    [try] block raised. *)
Theorem upload_summary_file_never_raises (w : world)
        (self : SEDSummaryUploader) (session : ClientSession)
        (d date : string) (p : Path) (t : list event) :
  fails_with_exceptions w ->
  exists ok evs,
    upload_summary_file w self session d date p t = (Return ok, t ++ evs) /\
    forall e t', upload_attempt w self session d date p t = (Raise e, t') ->
                 ok = false.
Proof.
  intros Hw.
  destruct (upload_attempt_ends self session d date p Hw t)
    as (evs & Et & _ & He).
  unfold upload_summary_file, try_except.
  destruct (upload_attempt w self session d date p t) as [[a|e] t1];
    cbn [fst snd] in *; subst t1.
  - exists a, evs. split; [reflexivity|]. intros e t' [=].
  - destruct (upload_clauses_catch d date p e He) as (cl & m & -> & _ & Hcl).
    rewrite Hcl. exists false, (evs ++ [Log ERROR m]).
    rewrite app_assoc. split; [reflexivity|]. reflexivity.
Qed.

Lemma upload_summary_file_never_raises_witness :
  exists ok evs,
    upload_summary_file Sample.w Sample.uploader Sample.session
                        "devC" "2024-01-01" (BASE_DIR // "devC") [] =
      (Return ok, [] ++ evs) /\
    forall e t',
      upload_attempt Sample.w Sample.uploader Sample.session
                     "devC" "2024-01-01" (BASE_DIR // "devC") [] =
        (Raise e, t') ->
      ok = false.
Proof.
  apply (@upload_summary_file_never_raises Sample.w Sample.uploader
           Sample.session "devC" "2024-01-01" (BASE_DIR // "devC") []).
  sample_server_answers.
Defined.

(** ** The batch *)

Lemma count_app (b : bool) (l l' : list bool) :
  count b (l ++ l') = count b l + count b l'.
Proof. unfold count. now rewrite filter_app, length_app. Qed.

Lemma count_split (l : list bool) : count true l + count false l = List.length l.
Proof.
  unfold count. induction l as [|[|] l IH]; simpl; lia.
Qed.

Lemma upload_event_confined (base p : Path) (ev : event) :
  below base p -> upload_event p ev -> confined base ev.
Proof.
  intros Hb. destruct ev; simpl; auto. intros ->. exact Hb.
Qed.

Lemma discovery_event_confined (base : Path) (ev : event) :
  discovery_event base ev -> confined base ev.
Proof. destruct ev; simpl; auto. Qed.

Lemma discovered_below (fs : node) (base : Path) :
  Forall (fun f => below base (snd f)) (discovered fs base).
Proof.
  apply Forall_forall. intros [[d t] p] Hin. simpl.
  apply in_discovered in Hin.
  destruct Hin as (Hd & _ & Ht & _ & _ & -> & _).
  apply below_summary_path.
  apply below_child; [|eapply listdir_plain; eauto].
  apply below_child; [apply below_refl|eapply listdir_plain; eauto].
Qed.

Section Batch.

Variable w : world.
Variable self : SEDSummaryUploader.
Variable E : exn -> Prop.
Variable base : Path.

(** What is known of one upload: it fails at most as [E] allows. *)
Hypothesis upload_ends :
  forall session d date p,
    ends E (upload_event p) (fun _ => True)
         (upload_summary_file w self session d date p).

(** The collecting loop awaits every coroutine once and counts each
    outcome in one of the two counters. *)
Lemma collect_ends (session : ClientSession)
      (files : list (string * string * Path)) :
  Forall (fun f => below base (snd f)) files ->
  ends E (confined base)
       (fun counts => exists outcomes,
            List.length outcomes = List.length files /\
            fst counts = count true outcomes /\
            snd counts = count false outcomes)
       (for_each
          (map (fun '(device_id, date, file_path) =>
                  (device_id, date,
                   upload_summary_file w self session device_id date file_path))
               files)
          (0, 0) collect).
Proof.
  intros Hfiles.
  set (tasks := map _ files).
  eapply ends_weaken with (E' := E) (P' := confined base); [|auto|auto|].
  - apply ends_for_each
      with (I := fun passed (counts : nat * nat) => exists outcomes,
                   List.length outcomes = List.length passed /\
                   fst counts = count true outcomes /\
                   snd counts = count false outcomes)
           (passed := []).
    + intros passed [[d date] task] [s f] Hx (outcomes & Hlen & Hs & Hf).
      simpl in Hs, Hf. subst s f.
      apply in_map_iff in Hx. destruct Hx as ([[d' date'] p] & [= <- <- <-] & Hin).
      rewrite Forall_forall in Hfiles. specialize (Hfiles _ Hin). simpl in Hfiles.
      unfold collect, await.
      eapply ends_bind.
      { eapply ends_weaken; [apply upload_ends| | |]; auto.
        - intros ev. apply upload_event_confined, Hfiles.
        - intros a Ha. exact Ha. }
      intros ok _.
      destruct ok; apply ends_ret;
        [exists (outcomes ++ [true])|exists (outcomes ++ [false])];
        rewrite !length_app, !count_app, Hlen; simpl;
        (split; [reflexivity|]); split; unfold count; simpl; lia.
    + exists []. auto.
  - simpl. intros counts (outcomes & Hlen & Hs & Hf).
    exists outcomes. unfold tasks in Hlen. rewrite length_map in Hlen. auto.
Qed.

(** A batch run reports as many files as discovery found, and every one
    of them in exactly one of the two counters. *)
Lemma upload_all_summaries_ends :
  (path_exists (fs w) (base_dir self) = Raise OSError -> E OSError) ->
  (path_exists (fs w) (base_dir self) = Return true ->
   path_is_dir (fs w) (base_dir self) = Return false ->
   E NotADirectoryError) ->
  base = base_dir self ->
  ends E (confined base)
       (fun r => total r = List.length (discovered (fs w) base) /\
                 exists outcomes,
                   List.length outcomes = total r /\
                   success r = count true outcomes /\
                   failed r = count false outcomes)
       (upload_all_summaries w self).
Proof.
  intros HO HE Hb. unfold upload_all_summaries.
  eapply ends_bind.
  { eapply ends_weaken; [apply find_all_ends; [exact HO|exact HE]|auto| |].
    - rewrite Hb. apply discovery_event_confined.
    - intros a Ha. exact Ha. }
  simpl. rewrite <- Hb. intros files <-.
  pose proof (discovered_below (fs w) base) as Hbelow.
  destruct (discovered (fs w) base) as [|f files] eqn:Hfiles.
  - logs. apply ends_ret. simpl. split; [reflexivity|].
    exists []. auto.
  - rewrite <- Hfiles in *. eapply ends_bind.
    { apply ends_with_session; [exact I|exact I|].
      apply collect_ends, Hbelow. }
    simpl. intros counts (outcomes & Hlen & Hs & Hf).
    apply ends_ret. simpl. split; [reflexivity|].
    exists outcomes. auto.
Qed.

End Batch.

(** C2.  When discovery returns [files] and the remote end fails only
    with exceptions, the batch run returns a result whose [total] is the
    number of files and whose [success] and [failed] add up to it: there
    is one boolean outcome per file, [success] counts the true ones and
    [failed] the false ones.  With no file the result is all zero. *)
Theorem batch_counts (w : world) (self : SEDSummaryUploader)
        (t t1 : list event) (files : list (string * string * Path)) :
  fails_with_exceptions w ->
  find_all_summary_files w self t = (Return files, t1) ->
  exists r outcomes t2,
    upload_all_summaries w self t = (Return r, t2) /\
    total r = List.length files /\
    List.length outcomes = List.length files /\
    success r = count true outcomes /\
    failed r = count false outcomes /\
    success r + failed r = List.length files /\
    (files = [] -> r = mkResult 0 0 0).
Proof.
  intros Hw Hfind.
  destruct (@find_all_ends w anything self (fun _ => I) (fun _ _ => I) t)
    as (evs & _ & _ & Hq).
  rewrite Hfind in Hq. simpl in Hq.
  pose proof (discovered_below (fs w) (base_dir self)) as Hbelow.
  rewrite Hq in Hbelow.
  unfold upload_all_summaries, bind. rewrite Hfind.
  destruct files as [|f files].
  - exists (mkResult 0 0 0), [], (t1 ++ [Log WARNING MsgNothingToUpload]).
    simpl. auto 10.
  - set (all := f :: files) in *.
    assert (Hloop : ends never (confined (base_dir self))
              (fun counts : nat * nat => exists outcomes,
                 List.length outcomes = List.length all /\
                 fst counts = count true outcomes /\
                 snd counts = count false outcomes)
              (with_session (connector_param self) (fun session =>
                 for_each
                   (map (fun '(device_id, date, file_path) =>
                      (device_id, date,
                       upload_summary_file w self session
                                           device_id date file_path)) all)
                   (0, 0) collect))).
    { apply ends_with_session; [exact I|exact I|].
      apply collect_ends; [|exact Hbelow].
      intros. apply upload_summary_file_ends, Hw. }
    destruct (ends_never Hloop t1)
      as (counts & evs' & Ec & (outcomes & Hlen & Hs & Hf) & _).
    rewrite Ec. exists (mkResult (fst counts) (snd counts) (List.length all)).
    exists outcomes, (t1 ++ evs'). simpl.
    repeat split; auto.
    + rewrite Hs, Hf, count_split. exact Hlen.
    + discriminate.
Qed.

Lemma batch_counts_witness :
  exists r outcomes t2,
    upload_all_summaries Sample.w Sample.uploader [] = (Return r, t2) /\
    total r = 2 /\
    List.length outcomes = 2 /\
    success r = count true outcomes /\
    failed r = count false outcomes /\
    success r + failed r = 2 /\
    ([("devA", "2024-01-01", Sample.devA_path);
      ("devB", "2024-01-02", Sample.devB_path)] = [] -> r = mkResult 0 0 0).
Proof.
  apply (@batch_counts Sample.w Sample.uploader []
           (snd (find_all_summary_files Sample.w Sample.uploader []))
           [("devA", "2024-01-01", Sample.devA_path);
            ("devB", "2024-01-02", Sample.devB_path)]).
  - sample_server_answers.
  - vm_compute. reflexivity.
Defined.

(** ** Single-file runs *)




(** ** The command line *)

Lemma main_preamble (args : Namespace) (t : list event) (k : M unit) :
  bind (if arg_verbose args then emit (SetLevel DEBUG) else ret tt) (fun _ => k) t
  = k (t ++ preamble args).
Proof.
  unfold bind, preamble, emit, ret.
  destruct (arg_verbose args); [reflexivity|now rewrite app_nil_r].
Qed.

(** C7, as the code has it.  When exactly one of [--device-id] and
    [--date] has a non-empty value (the other being absent or empty),
    [main] prints the pair error and returns: no uploader is built,
    nothing is looked up, nothing is sent.  An argument given as the
    empty string counts as not given. *)
Theorem one_sided_pair_aborts (w : world) (args : Namespace) (t : list event) :
  xorb (truthy (arg_device_id args)) (truthy (arg_date args)) = true ->
  main w args t = (Return tt, t ++ preamble args ++ [Stdout OutPairError]).
Proof.
  intros Hx. unfold main. rewrite main_preamble.
  destruct (truthy (arg_device_id args)), (truthy (arg_date args));
    simpl in Hx; try discriminate; simpl; unfold print, emit;
    rewrite <- app_assoc; reflexivity.
Qed.

Lemma one_sided_pair_aborts_witness :
  main Sample.w (mkArgs (Some "devA") None DEFAULT_UPLOAD_URL true) [] =
  (Return tt,
   [] ++ preamble (mkArgs (Some "devA") None DEFAULT_UPLOAD_URL true)
      ++ [Stdout OutPairError]).
Proof.
  apply (@one_sided_pair_aborts Sample.w
           (mkArgs (Some "devA") None DEFAULT_UPLOAD_URL true) []).
  reflexivity.
Defined.

(** C7 as stated fails: with [--device-id ""] alone exactly one of the
    two arguments is supplied, yet nothing is refused; the batch run
    discovers and uploads both sample files. *)
Lemma empty_device_id_is_not_refused :
  let args := mkArgs (Some "") None DEFAULT_UPLOAD_URL false in
  let trace := snd (main Sample.w args []) in
  xorb (supplied (arg_device_id args)) (supplied (arg_date args)) = true /\
  printed trace = [OutHeader; OutSuccess 1; OutFailed 1; OutTotal 2;
                   OutRate 1 2; OutDone] /\
  map req_device_id (posts trace) = ["devA"; "devB"] /\
  existsb is_fs trace = true.
Proof. vm_compute. auto. Qed.

(** C8, as the code has it.  When [--date] has a non-empty value that
    [strptime] rejects, [main] prints an error and returns before any
    uploader is built: the date error when [--device-id] is given too, the
    pair error otherwise.  Nothing is looked up and nothing is sent. *)
Theorem malformed_date_aborts (w : world) (args : Namespace) (t : list event) :
  truthy (arg_date args) = true ->
  parses (str_of (arg_date args)) = false ->
  main w args t =
  (Return tt,
   t ++ preamble args
     ++ [Stdout (if truthy (arg_device_id args)
                then OutDateError else OutPairError)]).
Proof.
  intros Hd Hp. unfold main. rewrite main_preamble, Hd, Hp.
  destruct (truthy (arg_device_id args)); simpl; unfold print, emit;
    rewrite <- app_assoc; reflexivity.
Qed.

Lemma malformed_date_aborts_witness :
  main Sample.w (mkArgs (Some "devA") (Some "2024/01/01") DEFAULT_UPLOAD_URL false) [] =
  (Return tt,
   [] ++ preamble (mkArgs (Some "devA") (Some "2024/01/01") DEFAULT_UPLOAD_URL false)
      ++ [Stdout (if truthy (arg_device_id
                              (mkArgs (Some "devA") (Some "2024/01/01")
                                      DEFAULT_UPLOAD_URL false))
                 then OutDateError else OutPairError)]).
Proof.
  apply (@malformed_date_aborts Sample.w
           (mkArgs (Some "devA") (Some "2024/01/01") DEFAULT_UPLOAD_URL false) []);
    reflexivity.
Defined.

(** C8 as stated fails: [--date ""] is a supplied date that does not
    parse, yet [main] goes on to the batch run. *)
Lemma empty_date_is_not_refused :
  let args := mkArgs None (Some "") DEFAULT_UPLOAD_URL false in
  let trace := snd (main Sample.w args []) in
  supplied (arg_date args) = true /\
  parses (str_of (arg_date args)) = false /\
  printed trace = [OutHeader; OutSuccess 1; OutFailed 1; OutTotal 2;
                   OutRate 1 2; OutDone] /\
  existsb is_init trace = true /\
  map req_device_id (posts trace) = ["devA"; "devB"] /\
  existsb is_fs trace = true.
Proof. vm_compute. auto 10. Qed.

(** ** The course of a batch *)

Lemma marks_app (t t' : list event) : marks (t ++ t') = marks t ++ marks t'.
Proof.
  induction t as [|ev t IH]; simpl; [reflexivity|].
  destruct ev as [l m| | | | | | | |]; try exact IH.
  - destruct m; simpl; rewrite IH; reflexivity.
  - simpl. rewrite IH. reflexivity.
Qed.

Lemma marks_discovery (base : Path) (evs : list event) :
  Forall (discovery_event base) evs -> marks evs = [] /\ posts evs = [].
Proof.
  induction 1 as [|ev evs Hev _ IH]; [split; reflexivity|].
  destruct ev as [l m| | | | | | | |]; simpl in *; try contradiction; auto.
  destruct m; try discriminate; auto.
Qed.

Section InTurn.

Variable w : world.
Variable self : SEDSummaryUploader.
Variable session : ClientSession.
Hypothesis Hw : fails_with_exceptions w.

(** The [try] block starts, sends at most one request, and ends unless
    it raises. *)
Lemma upload_attempt_marks (d date : string) (p : Path) (t : list event) :
  exists r evs sent,
    upload_attempt w self session d date p t = (r, t ++ evs) /\
    (sent = [] \/ sent = [Sent d date]) /\
    match r with
    | Return _ => marks evs = Started d date :: sent ++ [Ended]
    | Raise e => isinstance e Exception = true /\
                 marks evs = Started d date :: sent
    end.
Proof.
  destruct (stat (fs w) p) as [[[content|]|es]| | |] eqn:Hs.
  1: { pose proof (Hw (posts t) session (form_data self content d date)) as Hn.
       destruct (net w (posts t) session (form_data self content d date))
         as [e|st text] eqn:En.
       - exists (Raise e), [Log INFO (MsgUploadStart d date); Fs (SysOpen p);
                            Post session (form_data self content d date)],
                [Sent d date].
         split; [|split; [auto|split; [exact Hn|reflexivity]]].
         unfold upload_attempt, bind, log, emit, read_text, post. simpl.
         rewrite Hs. unfold ret. simpl.
         rewrite !posts_app. simpl. rewrite !app_nil_r, En.
         rewrite <- !app_assoc. reflexivity.
       - rewrite (@upload_attempt_response w self session d date p t
                    content st text Hs En). cbv zeta.
         destruct (st =? 200)%Z; [|destruct text as [b|e]];
           eexists; eexists; exists [Sent d date];
           rewrite <- !app_assoc;
           (split; [reflexivity|]); (split; [auto|]); simpl; auto. }
  all: eexists (Raise _), [Log INFO (MsgUploadStart d date); Fs (SysOpen p)], [];
    (split;
     [unfold upload_attempt, read_text; cbv [bind log emit];
      rewrite Hs; cbv [raise]; rewrite <- ?app_assoc; reflexivity
     |split; [auto|split; reflexivity]]).
Qed.

Lemma upload_summary_file_marks (d date : string) (p : Path) (t : list event) :
  exists ok evs sent,
    upload_summary_file w self session d date p t = (Return ok, t ++ evs) /\
    (sent = [] \/ sent = [Sent d date]) /\
    marks evs = Started d date :: sent ++ [Ended].
Proof.
  destruct (upload_attempt_marks d date p t)
    as ([ok|e] & evs & sent & Ea & Hsent & Hm);
    unfold upload_summary_file, try_except; rewrite Ea.
  - exists ok, evs, sent. auto.
  - destruct Hm as [He Hm].
    destruct (upload_clauses_catch d date p e He) as (cl & m & -> & Ht & Hcl).
    rewrite Hcl. exists false, (evs ++ [Log ERROR m]), sent.
    rewrite app_assoc. split; [reflexivity|]. split; [exact Hsent|].
    rewrite marks_app, Hm. simpl.
    destruct m; try discriminate; reflexivity.
Qed.

(** The collecting loop runs the uploads in turn. *)
Lemma collect_in_turn (files : list (string * string * Path)) :
  forall counts t, exists counts' evs,
    for_each
      (map (fun '(device_id, date, file_path) =>
              (device_id, date,
               upload_summary_file w self session device_id date file_path))
           files)
      counts collect t = (Return counts', t ++ evs) /\
    in_turn files (marks evs).
Proof.
  induction files as [|[[d date] p] files IH]; intros [s f] t; simpl.
  - exists (s, f), []. rewrite app_nil_r. split; [reflexivity|constructor].
  - unfold bind, await.
    destruct (upload_summary_file_marks d date p t)
      as (ok & evs & sent & -> & Hsent & Hm).
    destruct ok; unfold ret;
      [destruct (IH (S s, f) (t ++ evs)) as (counts' & evs' & -> & Hin)
      |destruct (IH (s, S f) (t ++ evs)) as (counts' & evs' & -> & Hin)];
      exists counts', (evs ++ evs'); rewrite app_assoc;
      (split; [reflexivity|]);
      rewrite marks_app, Hm; simpl; rewrite <- app_assoc; simpl;
      constructor; assumption.
Qed.

End InTurn.

(** X15.  In a batch run discovery is over before the first upload starts:
    the events of discovery hold no step of an upload and no request.
    After it, under one session, the uploads run one after the other in
    the order of the discovered list. *)
Theorem batch_uploads_in_turn (w : world) (self : SEDSummaryUploader)
        (t t1 : list event) (files : list (string * string * Path)) :
  fails_with_exceptions w ->
  find_all_summary_files w self t = (Return files, t1) ->
  exists r found evs,
    t1 = t ++ found /\ marks found = [] /\ posts found = [] /\
    upload_all_summaries w self t = (Return r, t1 ++ evs) /\
    in_turn files (marks evs).
Proof.
  intros Hw Hfind.
  destruct (@find_all_ends w anything self (fun _ => I) (fun _ _ => I) t)
    as (found & Et & Hfound & _).
  rewrite Hfind in Et. simpl in Et.
  destruct (marks_discovery Hfound) as [Hm Hp].
  unfold upload_all_summaries, bind. rewrite Hfind.
  destruct files as [|f files].
  - exists (mkResult 0 0 0), found, [Log WARNING MsgNothingToUpload].
    repeat split; auto. constructor.
  - unfold with_session, bind, emit.
    destruct (collect_in_turn self (mkSession (connector_param self)) Hw
                (f :: files) (0, 0)
                (t1 ++ [SessionOpen (mkSession (connector_param self))]))
      as (counts & evs & -> & Hin).
    eexists; exists found; eexists. rewrite <- !app_assoc.
    repeat split; auto.
    rewrite !marks_app. simpl. rewrite app_nil_r. exact Hin.
Qed.

Lemma batch_uploads_in_turn_witness :
  exists r found evs,
    snd (find_all_summary_files Sample.w Sample.uploader []) = [] ++ found /\
    marks found = [] /\ posts found = [] /\
    upload_all_summaries Sample.w Sample.uploader [] =
      (Return r, snd (find_all_summary_files Sample.w Sample.uploader []) ++ evs) /\
    in_turn [("devA", "2024-01-01", Sample.devA_path);
             ("devB", "2024-01-02", Sample.devB_path)] (marks evs).
Proof.
  apply (@batch_uploads_in_turn Sample.w Sample.uploader []
           (snd (find_all_summary_files Sample.w Sample.uploader []))
           [("devA", "2024-01-01", Sample.devA_path);
            ("devB", "2024-01-02", Sample.devB_path)]).
  - sample_server_answers.
  - vm_compute. reflexivity.
Defined.

(** C9 on the two sample files.  Discovery ends before the first upload
    starts and the outcomes are counted in the order of discovery, but the
    uploads are not in flight together: the coroutine of [devB] starts
    only after that of [devA] has ended, so the request for [devB] is
    sent after the answer for [devA] has been logged. *)
Theorem sample_uploads_are_not_concurrent :
  let trace := snd (upload_all_summaries Sample.w Sample.uploader []) in
  marks trace =
    [Started "devA" "2024-01-01"; Sent "devA" "2024-01-01"; Ended;
     Started "devB" "2024-01-02"; Sent "devB" "2024-01-02"; Ended] /\
  fst (upload_all_summaries Sample.w Sample.uploader []) =
    Return (mkResult 1 1 2).
Proof. vm_compute. auto. Qed.

(** ** Dates are plain path segments *)

Lemma ascii_byte (c : ascii) : ascii_of_N (byte c) = c.
Proof. apply ascii_N_embedding. Qed.

Lemma byte_ascii (cp : N) : (cp < 256)%N -> byte (ascii_of_N cp) = cp.
Proof. apply N_ascii_embedding. Qed.

Lemma high_date_char (c : ascii) : (128 <=? byte c)%N = true -> date_char c = true.
Proof. unfold date_char. intros ->. now rewrite !orb_true_r. Qed.

Lemma continuation_date_char (c : ascii) :
  continuation (byte c) = true -> date_char c = true.
Proof.
  unfold continuation. intros H. apply andb_true_iff in H.
  apply high_date_char, H.
Qed.

(** The bytes of one code point are ASCII or all high. *)
Lemma next_code_point_chars (s r : string) (cp : N) :
  next_code_point s = Some (cp, r) ->
  ((cp < 128)%N -> date_char (ascii_of_N cp) = true) ->
  all_chars date_char r = true ->
  all_chars date_char s = true.
Proof.
  destruct s as [|c0 r0]; [discriminate|]. cbn [next_code_point].
  destruct (byte c0 <? 128)%N eqn:H0.
  { intros [= <- <-] Hc Hr. apply N.ltb_lt in H0.
    specialize (Hc H0). rewrite ascii_byte in Hc. simpl. now rewrite Hc, Hr. }
  assert (Hhigh : date_char c0 = true).
  { apply high_date_char. apply N.ltb_ge in H0. now apply N.leb_le. }
  intros H _ Hr.
  repeat match type of H with
         | context [if ?b then _ else _] => destruct b eqn:?
         | context [match ?x with EmptyString => _ | String _ _ => _ end] =>
             destruct x
         end;
    injection H as _ <-;
    cbn [all_chars] in *;
    repeat match goal with
           | Hk : _ && _ = true |- _ =>
               apply andb_true_iff in Hk; destruct Hk
           end;
    repeat (apply andb_true_iff; split);
    auto using continuation_date_char.
Qed.

Lemma one_chars (good : N -> bool) (s r : string) (cp : N) :
  (forall a, (a < 128)%N -> good a = true -> date_char (ascii_of_N a) = true) ->
  all_chars date_char r = true ->
  In (cp, r) (one good s) -> all_chars date_char s = true.
Proof.
  intros Hgood Hr. unfold one.
  destruct (next_code_point s) as [[cp' r']|] eqn:Hn; [|intros []].
  destruct (good cp') eqn:Hg; [|intros []].
  intros [[= <- <-]|[]].
  eapply next_code_point_chars; eauto.
Qed.

Lemma decimal_zeros_ascii :
  Forall (fun zero => zero = 48 \/ 128 <= zero)%N decimal_zeros.
Proof.
  unfold decimal_zeros.
  repeat (constructor; [first [left; reflexivity | right; lia]|]).
  constructor.
Qed.

Lemma ascii_digit_date_char (a : N) :
  (48 <= a)%N -> (a <= 57)%N -> date_char (ascii_of_N a) = true.
Proof.
  intros Hlo Hhi. unfold date_char, ascii_digit.
  rewrite byte_ascii by lia.
  apply N.leb_le in Hlo, Hhi. now rewrite Hlo, Hhi.
Qed.

(** Below 128 the only decimal digits are the ASCII ones. *)
Lemma class_digit (a : N) :
  (a < 128)%N -> is_digit a = true -> date_char (ascii_of_N a) = true.
Proof.
  intros Ha. unfold is_digit, decimal_value.
  destruct (find _ decimal_zeros) as [zero|] eqn:Hf; [intros _|discriminate].
  apply find_some in Hf. destruct Hf as [Hin Hz].
  pose proof decimal_zeros_ascii as Hall. rewrite Forall_forall in Hall.
  apply andb_true_iff in Hz. destruct Hz as [Hlo Hhi].
  apply N.leb_le in Hlo. apply N.ltb_lt in Hhi.
  destruct (Hall _ Hin) as [-> |Hbig]; [|lia].
  apply ascii_digit_date_char; lia.
Qed.

Lemma class_range (lo hi : ascii) :
  ascii_digit lo = true -> ascii_digit hi = true ->
  forall a, (a < 128)%N -> in_range lo hi a = true ->
            date_char (ascii_of_N a) = true.
Proof.
  unfold ascii_digit, in_range. intros Hlo Hhi a _ Ha.
  apply andb_true_iff in Hlo, Hhi, Ha.
  destruct Hlo as [Hlo _], Hhi as [_ Hhi], Ha as [Ha1 Ha2].
  apply N.leb_le in Hlo, Hhi, Ha1, Ha2.
  apply ascii_digit_date_char; lia.
Qed.

Lemma class_chr (c : ascii) :
  date_char c = true ->
  forall a, (a < 128)%N -> chr c a = true -> date_char (ascii_of_N a) = true.
Proof.
  unfold chr. intros Hc a _ Ha. apply N.eqb_eq in Ha. subst a.
  now rewrite ascii_byte.
Qed.

Ltac char_class :=
  first [ exact class_digit
        | apply class_range; reflexivity
        | apply class_chr; reflexivity ].

Lemma two_chars (ok1 ok2 : N -> bool) (s r : string) (v : Z) :
  (forall a, (a < 128)%N -> ok1 a = true -> date_char (ascii_of_N a) = true) ->
  (forall a, (a < 128)%N -> ok2 a = true -> date_char (ascii_of_N a) = true) ->
  all_chars date_char r = true ->
  In (v, r) (two ok1 ok2 s) -> all_chars date_char s = true.
Proof.
  intros H1 H2 Hr. unfold two. rewrite in_flat_map.
  intros ([a r1] & Ha & Hin). apply in_map_iff in Hin.
  destruct Hin as ([b r2] & [= _ <-] & Hb).
  eapply one_chars; [exact H1| |exact Ha].
  eapply one_chars; [exact H2|exact Hr|exact Hb].
Qed.

Lemma single_chars (ok : N -> bool) (s r : string) (v : Z) :
  (forall a, (a < 128)%N -> ok a = true -> date_char (ascii_of_N a) = true) ->
  all_chars date_char r = true ->
  In (v, r) (single ok s) -> all_chars date_char s = true.
Proof.
  intros H1 Hr. unfold single. rewrite in_map_iff.
  intros ([a r1] & [= _ <-] & Ha).
  eapply one_chars; [exact H1|exact Hr|exact Ha].
Qed.

Lemma lit_chars (c : ascii) (s r : string) :
  date_char c = true -> all_chars date_char r = true ->
  In r (lit c s) -> all_chars date_char s = true.
Proof.
  intros Hc Hr. unfold lit. rewrite in_map_iff.
  intros ([a r1] & Heq & Ha). simpl in Heq. subst r1.
  eapply one_chars; [apply class_chr, Hc|exact Hr|exact Ha].
Qed.

Lemma re_Y_chars (s r : string) (v : Z) :
  all_chars date_char r = true -> In (v, r) (re_Y s) ->
  all_chars date_char s = true.
Proof.
  intros Hr. unfold re_Y. rewrite in_flat_map.
  intros ([hi r1] & Hhi & Hin). apply in_map_iff in Hin.
  destruct Hin as ([lo r2] & [= _ <-] & Hlo).
  eapply two_chars; [| | |exact Hhi]; try char_class; auto.
  eapply two_chars; [| | |exact Hlo]; try char_class; auto.
Qed.

Lemma re_m_chars (s r : string) (v : Z) :
  all_chars date_char r = true -> In (v, r) (re_m s) ->
  all_chars date_char s = true.
Proof.
  intros Hr. unfold re_m. rewrite !in_app_iff.
  intros [H|[H|H]];
    [eapply two_chars|eapply two_chars|eapply single_chars];
    try exact H; try exact Hr; try char_class; auto.
Qed.

Lemma re_d_chars (s r : string) (v : Z) :
  all_chars date_char r = true -> In (v, r) (re_d s) ->
  all_chars date_char s = true.
Proof.
  intros Hr. unfold re_d. rewrite !in_app_iff.
  intros [H|[H|[H|[H|H]]]];
    [eapply two_chars|eapply two_chars|eapply two_chars|eapply single_chars|];
    try exact H; try exact Hr; try char_class; auto.
  apply in_flat_map in H. destruct H as ([a r1] & Ha & Hin).
  eapply one_chars; [| |exact Ha]; try char_class; auto.
  eapply single_chars; [| |exact Hin]; try char_class; auto.
Qed.

(** A string [strptime] accepts is made of ASCII digits, hyphens, spaces
    and the bytes of characters outside ASCII. *)
Lemma parses_chars (s : string) :
  parses s = true -> all_chars date_char s = true.
Proof.
  unfold parses, strptime.
  destruct (format_regex s) as [|[[[y m] d] rest] l] eqn:Ef; [discriminate|].
  destruct (String.eqb_spec rest ""); [subst rest|discriminate]. intros _.
  assert (Hin : In (y, m, d, "") (format_regex s)) by (rewrite Ef; left; reflexivity).
  unfold format_regex in Hin.
  apply in_flat_map in Hin. destruct Hin as ([y' r1] & Hy & Hin).
  apply in_flat_map in Hin. destruct Hin as (r2 & H1 & Hin).
  apply in_flat_map in Hin. destruct Hin as ([m' r3] & Hm & Hin).
  apply in_flat_map in Hin. destruct Hin as (r4 & H2 & Hin).
  apply in_map_iff in Hin. destruct Hin as ([d' r5] & [= _ _ _ ->] & Hd).
  eapply re_Y_chars; [|exact Hy].
  eapply (@lit_chars "-"); [reflexivity| |exact H1].
  eapply re_m_chars; [|exact Hm].
  eapply (@lit_chars "-"); [reflexivity| |exact H2].
  eapply re_d_chars; [|exact Hd]. reflexivity.
Qed.

Lemma split_on_chars (ok : ascii -> bool) (sep : ascii) (s : string) :
  all_chars ok s = true ->
  Forall (fun x => all_chars ok x = true) (split_on sep s).
Proof.
  induction s as [|c s IH]; simpl; intros H.
  - repeat constructor.
  - apply andb_true_iff in H. destruct H as [Hc Hs]. specialize (IH Hs).
    destruct (Ascii.eqb c sep); [constructor; auto|].
    destruct (split_on sep s) as [|h tl].
    + repeat constructor. simpl. now rewrite Hc.
    + inversion IH; subst. constructor; auto. simpl. now rewrite Hc.
Qed.

Lemma date_chars_no_root (s : string) :
  all_chars date_char s = true -> splitroot s = "".
Proof.
  destruct s as [|a s]; [reflexivity|]. simpl. intros H.
  apply andb_true_iff in H. destruct H as [Ha _].
  destruct a as [[] [] [] [] [] [] [] []]; try reflexivity;
    vm_compute in Ha; discriminate.
Qed.

(** A date that [strptime] accepts is appended below the path it is
    joined to. *)
Lemma parsed_date_stays_below (s : string) : parses s = true -> stays_below s.
Proof.
  intros Hp. apply parses_chars in Hp. unfold stays_below, parse_parts. simpl.
  split; [apply date_chars_no_root, Hp|].
  intros Hin. apply filter_In in Hin. destruct Hin as [Hin _].
  pose proof (split_on_chars date_char "/" s Hp) as Hall.
  rewrite Forall_forall in Hall. specialize (Hall _ Hin).
  vm_compute in Hall. discriminate.
Qed.

(** ** Where a run looks *)

Lemma init_base_dir (url : string) (verify : bool) (t : list event) :
  exists self,
    init url verify t = (Return self, t ++ [BasicConfig INFO]) /\
    base_dir self = BASE_DIR /\ upload_url self = url.
Proof. eexists. repeat split. Qed.

Section Confined.

Variable w : world.
Variable self : SEDSummaryUploader.

Lemma upload_confined (session : ClientSession) (d date : string) (p : Path) :
  below (base_dir self) p ->
  ends anything (confined (base_dir self)) (fun _ => True)
       (upload_summary_file w self session d date p).
Proof.
  intros Hb. eapply ends_weaken; [apply upload_summary_file_events| | |]; auto.
  intros ev. apply upload_event_confined, Hb.
Qed.

Lemma find_summary_file_confined (d date : string) :
  stays_below d -> stays_below date ->
  ends anything (confined (base_dir self))
       (fun found => forall p, found = Some p -> below (base_dir self) p)
       (find_summary_file w self d date).
Proof.
  intros Hd Hdate. unfold find_summary_file.
  assert (Hb : below (base_dir self)
                 (base_dir self // d // date // "sed-summary" // "result.json")).
  { apply (@below_summary_path (base_dir self) (base_dir self // d // date)).
    apply below_joinpath; [|exact Hdate].
    apply below_joinpath; [apply below_refl|exact Hd]. }
  eapply ends_bind; [apply exists_ends; [exact Hb|intros _; exact I]|].
  intros e _. destruct e.
  - apply ends_ret. intros p [= <-]. exact Hb.
  - logs. apply ends_ret. discriminate.
Qed.

(** A run looks below the base directory only, provided that in a
    single-file run the two names are appended below it. *)
Lemma run_confined (device_id date : option string) :
  (truthy device_id && truthy date = true ->
   stays_below (str_of device_id) /\ stays_below (str_of date)) ->
  ends anything (confined (base_dir self)) (fun _ => True)
       (run w self device_id date).
Proof.
  intros Hnames. unfold run, await.
  logs. destruct (truthy device_id && truthy date).
  - destruct (Hnames eq_refl) as [Hd Hdate].
    logs. eapply ends_bind with (Q := fun _ => True).
    + unfold upload_specific_summary.
      eapply ends_bind; [apply find_summary_file_confined; assumption|].
      intros [p|] Hp.
      * apply ends_with_session; [exact I|exact I|].
        apply upload_confined, Hp. reflexivity.
      * logs. apply ends_ret. exact I.
    + intros ok _. apply ends_ret. exact I.
  - logs. eapply ends_weaken with (E' := anything).
    + apply upload_all_summaries_ends with (base := base_dir self);
        [intros; apply upload_summary_file_events|intros; exact I|intros; exact I
        |reflexivity].
    + auto.
    + auto.
    + auto.
Qed.

End Confined.

Lemma report_confined (base : Path) (result : RunResult) :
  ends anything (confined base) (fun _ => True) (report result).
Proof.
  unfold report, print.
  repeat (eapply ends_bind;
          [first [apply ends_emit with (Q := fun _ => True); simpl; auto
                 |instantiate (1 := fun _ => True);
                  destruct (0 <? total result)%nat;
                  [apply ends_emit; simpl; auto|apply ends_ret; exact I]]
          |intros _ _]).
  destruct (0 <? success result)%nat; [|destruct (total result =? 0)%nat];
    apply ends_emit; simpl; auto.
Qed.

(** C10, as the code has it.  The constructor sets the base directory to
    the one fixed path whatever its arguments are; no method takes or
    returns another uploader, and the namespace of the command line has no
    field for it.  Every file-system call of an invocation is on a path
    below that directory, provided the value of [--device-id], when a
    single file is asked for, is a relative path without [..]: the date
    has passed [strptime] by then and is a plain segment. *)
Theorem lookups_stay_below_base_dir (w : world) (args : Namespace)
        (t : list event) :
  (truthy (arg_device_id args) = true ->
   stays_below (str_of (arg_device_id args))) ->
  (forall url verify t0, exists self,
      init url verify t0 = (Return self, t0 ++ [BasicConfig INFO]) /\
      base_dir self = BASE_DIR) /\
  exists evs,
    snd (main w args t) = t ++ evs /\ Forall (confined BASE_DIR) evs.
Proof.
  intros Hdev. split.
  { intros url verify t0.
    destruct (init_base_dir url verify t0) as (self & Hi & Hb & _). eauto. }
  assert (Hmain : ends anything (confined BASE_DIR) (fun _ => True) (main w args)).
  { unfold main, await.
    eapply ends_bind with (Q := fun _ => True).
    { destruct (arg_verbose args); [apply ends_emit|apply ends_ret]; simpl; auto. }
    intros _ _.
    destruct (truthy (arg_device_id args)) eqn:Hd,
             (truthy (arg_date args)) eqn:Hdate; simpl;
      try (apply ends_emit; simpl; auto).
    - destruct (parses (str_of (arg_date args))) eqn:Hp; simpl;
        [|apply ends_emit; simpl; auto].
      unfold init. eapply ends_bind with (Q := fun self => base_dir self = BASE_DIR).
      { logs. apply ends_ret. reflexivity. }
      intros self Hb. eapply ends_bind; [|intros result _; apply report_confined].
      rewrite <- Hb. apply run_confined. rewrite Hd, Hdate. intros _.
      split; [apply Hdev; reflexivity|apply parsed_date_stays_below, Hp].
    - unfold init. eapply ends_bind with (Q := fun self => base_dir self = BASE_DIR).
      { logs. apply ends_ret. reflexivity. }
      intros self Hb. eapply ends_bind; [|intros result _; apply report_confined].
      rewrite <- Hb. apply run_confined. rewrite Hd, Hdate. discriminate. }
  destruct (Hmain t) as (evs & Et & Hevs & _). eauto.
Qed.

Lemma lookups_stay_below_base_dir_witness :
  (forall url verify t0, exists self,
      init url verify t0 = (Return self, t0 ++ [BasicConfig INFO]) /\
      base_dir self = BASE_DIR) /\
  exists evs,
    snd (main Sample.w (mkArgs (Some "devA") (Some "2024-01-01")
                               DEFAULT_UPLOAD_URL false) []) = [] ++ evs /\
    Forall (confined BASE_DIR) evs.
Proof.
  apply (@lookups_stay_below_base_dir Sample.w
           (mkArgs (Some "devA") (Some "2024-01-01") DEFAULT_UPLOAD_URL false) []).
  intros _. split; [reflexivity|].
  simpl. intros [H|[]]. discriminate.
Defined.

(** C10 as stated fails for a single-file run: with [--device-id /tmp]
    the path that is looked up, opened and uploaded is
    [/tmp/2024-01-01/sed-summary/result.json], which is not below the base
    directory. *)
Lemma absolute_device_id_leaves_base_dir :
  let args := mkArgs (Some "/tmp") (Some "2024-01-01") DEFAULT_UPLOAD_URL false in
  let trace := snd (main Sample.w args []) in
  let outside := mkPath "/" ["tmp"; "2024-01-01"; "sed-summary"; "result.json"] in
  touched trace = [outside; outside] /\
  ~ below BASE_DIR outside /\
  map req_file (posts trace) = ["elsewhere"].
Proof.
  cbv zeta. split; [vm_compute; reflexivity|]. split; [|vm_compute; reflexivity].
  intros [_ (suffix & Hp & _)]. vm_compute in Hp. discriminate.
Qed.

(** ** Worked examples *)

(** The example of the specification: of [devA/2024-01-01] and
    [devA/not-a-date], both holding a summary file, only the first is
    found; [devB/2024-01-03] has no summary file. *)
Example sample_discovery :
  fst (find_all_summary_files Sample.w Sample.uploader []) =
  Return [("devA", "2024-01-01", Sample.devA_path);
          ("devB", "2024-01-02", Sample.devB_path)].
Proof. vm_compute. reflexivity. Qed.

(** What [strptime] accepts with ["%Y-%m-%d"]: months and days need no
    leading zero and the day may have a leading space; the year has four
    digits, the date must exist, and nothing may follow it. *)
Example strptime_samples :
  map parses ["2024-01-01"; "2024-1-5"; "2024-01- 5"; "2024-02-29";
              "2023-02-29"; "2024-01-32"; "24-01-01"; "0000-01-01";
              "2024-01-01 "; "not-a-date"; ""] =
  [true; true; true; true; false; false; false; false; false; false; false].
Proof. vm_compute. reflexivity. Qed.

(** The digits of the year, and the second digit of a day from 10 to 29,
    may be decimal digits of any script; the month and the other digits
    of the day are ASCII. *)
Example strptime_unicode_samples :
  map strptime ["２０２４-01-01"; "2024-01-1٥"; "2024-01-2９"; "٢٠٢٤-1-1";
                "2024-０1-01"; "2024-01-０1"; "2024-01-３1"] =
  [Some (2024, 1, 1); Some (2024, 1, 15); Some (2024, 1, 29);
   Some (2024, 1, 1); None; None; None]%Z.
Proof. vm_compute. reflexivity. Qed.

(** A date directory named with full-width digits is found like any
    other. *)
Example full_width_date_is_discovered :
  let base := mkPath "/" ["base"] in
  let w := mkWorld (Dir [("base", Dir [("devA",
                      Dir [("２０２４-01-01",
                            Dir [("sed-summary",
                                  Dir [("result.json", File (Some "a"))])])])])])
                   Sample.server in
  fst (find_all_summary_files w (mkUploader DEFAULT_UPLOAD_URL base true None) [])
  = Return [("devA", "２０２４-01-01",
             base // "devA" // "２０２４-01-01" // "sed-summary" // "result.json")].
Proof. vm_compute. reflexivity. Qed.

(** What the [except] clauses do not catch: a cancellation, which derives
    from [BaseException] only, leaves [upload_summary_file] and ends the
    batch. *)
Example cancellation_propagates :
  fst (upload_summary_file Sample.cancelled Sample.uploader Sample.session
         "devA" "2024-01-01" Sample.devA_path []) = Raise CancelledError /\
  fst (upload_all_summaries Sample.cancelled Sample.uploader []) =
    Raise CancelledError.
Proof. vm_compute. auto. Qed.

(** A base path that exists and is a regular file makes discovery raise. *)
Example base_dir_a_file :
  fst (find_all_summary_files
         (mkWorld (Dir [("Users", Dir [("kaya.matsumoto", Dir [("data",
                     Dir [("data_accounts", File (Some ""))])])])])
                  Sample.server)
         Sample.uploader []) = Raise NotADirectoryError.
Proof. vm_compute. reflexivity. Qed.

(* ------------------------------------------------------------------ *)
(** * Further properties *)

(** ** Discovery *)

Section Looking.

Variable w : world.
Variable base : Path.

Lemma scan_date_dir_looks (device_id : string)
      (acc : list (string * string * Path)) (date_dir : Path) :
  below base date_dir ->
  ends anything (looks_only base) (fun _ => True)
       (scan_date_dir w device_id acc date_dir).
Proof.
  intros Hb. unfold scan_date_dir.
  eapply ends_bind; [apply is_dir_ends; [exact Hb|intros _; exact I]|].
  intros d _. destruct d; simpl; [|apply ends_ret; exact I].
  destruct (strptime (name date_dir)); [|apply ends_ret; exact I].
  eapply ends_bind;
    [apply exists_ends; [simpl; apply below_summary_path, Hb|intros _; exact I]|].
  intros e _. destruct e; [|apply ends_ret; exact I].
  logs. apply ends_ret. exact I.
Qed.

Lemma scan_device_dir_looks (acc : list (string * string * Path))
      (device_dir : Path) :
  below base device_dir ->
  ends anything (looks_only base) (fun _ => True)
       (scan_device_dir w acc device_dir).
Proof.
  intros Hb. unfold scan_device_dir.
  eapply ends_bind; [apply is_dir_ends; [exact Hb|intros _; exact I]|].
  intros d _. destruct d; simpl; [|apply ends_ret; exact I].
  eapply ends_bind.
  { apply iterdir_ends; [exact Hb|].
    destruct (stat (fs w) device_dir) as [[|]| | |]; exact I. }
  intros date_dirs <-.
  eapply ends_weaken with (E' := anything) (P' := looks_only base);
    [|auto|auto|intros; exact I].
  apply ends_for_each with (I := fun _ _ => True) (passed := []); [|exact I].
  intros passed x s Hx _.
  apply scan_date_dir_looks.
  apply in_map_iff in Hx. destruct Hx as (n & <- & Hn).
  apply below_child; [exact Hb|]. eapply listdir_plain; eauto.
Qed.

End Looking.

(** X1.  Whatever the file system holds, bulk discovery only asks for
    the status and the listing of paths below the base directory and logs
    its own records: it opens no file, starts no session and sends
    nothing. *)
Theorem discovery_only_looks (w : world) (self : SEDSummaryUploader)
        (t : list event) :
  exists evs,
    snd (find_all_summary_files w self t) = t ++ evs /\
    Forall (looks_only (base_dir self)) evs.
Proof.
  assert (H : ends anything (looks_only (base_dir self)) (fun _ => True)
                   (find_all_summary_files w self)).
  { unfold find_all_summary_files.
    eapply ends_bind;
      [apply exists_ends; [simpl; apply below_refl|intros _; exact I]|].
    intros e _. destruct e; simpl.
    - eapply ends_bind.
      { apply iterdir_ends; [simpl; apply below_refl|].
        destruct (stat (fs w) (base_dir self)) as [[|]| | |]; exact I. }
      intros device_dirs <-.
      eapply ends_bind with (Q := fun _ => True).
      { eapply ends_weaken with (E' := anything)
                                (P' := looks_only (base_dir self));
          [|auto|auto|intros; exact I].
        apply ends_for_each with (I := fun _ _ => True) (passed := []);
          [|exact I].
        intros passed x s Hx _. apply scan_device_dir_looks.
        apply in_map_iff in Hx. destruct Hx as (n & <- & Hn).
        apply below_child; [apply below_refl|]. eapply listdir_plain; eauto. }
      intros files _. logs. apply ends_ret. exact I.
    - logs. apply ends_ret. exact I. }
  destruct (H t) as (evs & Et & Hevs & _). eauto.
Qed.






Lemma find_all_raises (w : world) (self : SEDSummaryUploader) (t : list event) :
  path_exists (fs w) (base_dir self) = Return true ->
  path_is_dir (fs w) (base_dir self) = Return false ->
  find_all_summary_files w self t =
  (Raise NotADirectoryError,
   t ++ [Fs (SysStat (base_dir self)); Fs (SysListdir (base_dir self))]).
Proof.
  intros He Hd.
  unfold find_all_summary_files, exists_, iterdir, bind, emit, ret, ended.
  rewrite He. cbn [negb].
  unfold path_exists, path_is_dir in He, Hd.
  destruct (stat (fs w) (base_dir self)) as [[text|es]| | |]; try discriminate.
  unfold raise. rewrite <- !app_assoc. reflexivity.
Qed.

(** X3.  A base path that exists and is not a directory is fatal to a
    batch invocation: discovery raises [NotADirectoryError] from the
    listing, nothing catches it, and [main] ends without a report. *)
Theorem base_dir_not_a_directory_is_fatal (w : world) (args : Namespace)
        (t : list event) :
  path_exists (fs w) BASE_DIR = Return true ->
  path_is_dir (fs w) BASE_DIR = Return false ->
  truthy (arg_device_id args) = false ->
  truthy (arg_date args) = false ->
  main w args t =
  (Raise NotADirectoryError,
   t ++ preamble args
     ++ [BasicConfig INFO; Log INFO MsgRunStart; Log INFO MsgRunAll;
         Fs (SysStat BASE_DIR); Fs (SysListdir BASE_DIR)]).
Proof.
  intros He Hd Hdev Hdate. unfold main. rewrite main_preamble, Hdev, Hdate.
  cbn [andb orb negb].
  unfold init, run, await, bind, log, emit, ret. rewrite Hdev. cbn [andb].
  unfold upload_all_summaries, bind.
  rewrite find_all_raises by (cbn [base_dir]; assumption).
  cbn [base_dir]. rewrite <- !app_assoc. reflexivity.
Qed.

Lemma base_dir_not_a_directory_is_fatal_witness :
  let w := mkWorld (Dir [("Users", Dir [("kaya.matsumoto", Dir [("data",
                      Dir [("data_accounts", File (Some ""))])])])])
                   Sample.server in
  let args := mkArgs None None DEFAULT_UPLOAD_URL false in
  main w args [] =
  (Raise NotADirectoryError,
   [] ++ preamble args
      ++ [BasicConfig INFO; Log INFO MsgRunStart; Log INFO MsgRunAll;
          Fs (SysStat BASE_DIR); Fs (SysListdir BASE_DIR)]).
Proof.
  cbv zeta.
  apply (@base_dir_not_a_directory_is_fatal
           (mkWorld (Dir [("Users", Dir [("kaya.matsumoto", Dir [("data",
                      Dir [("data_accounts", File (Some ""))])])])])
                    Sample.server)
           (mkArgs None None DEFAULT_UPLOAD_URL false) []); reflexivity.
Defined.

(** ** Paths of the two lookups *)

Lemma split_on_plain (s : string) :
  all_chars (fun c => negb (Ascii.eqb c "/")) s = true ->
  split_on "/" s = [s].
Proof.
  induction s as [|c s IH]; simpl; [reflexivity|]. intros H.
  apply andb_true_iff in H. destruct H as [Hc Hs].
  apply negb_true_iff in Hc. rewrite Hc, (IH Hs). reflexivity.
Qed.

Lemma splitroot_plain (s : string) :
  all_chars (fun c => negb (Ascii.eqb c "/")) s = true -> splitroot s = "".
Proof.
  destruct s as [|a s]; [reflexivity|]. simpl. intros H.
  apply andb_true_iff in H. destruct H as [Ha _].
  destruct a as [[] [] [] [] [] [] [] []]; try reflexivity; discriminate.
Qed.

(** Joining one plain component is what [iterdir] does with an entry. *)
Lemma joinpath_plain (p : Path) (s : string) :
  plain_segment s -> p // s = child p s.
Proof.
  intros (Hne & Hdot & Hs). unfold joinpath, parse_parts, child.
  rewrite (splitroot_plain s Hs), (split_on_plain s Hs). simpl.
  unfold kept_part.
  apply String.eqb_neq in Hne, Hdot. rewrite Hne, Hdot. reflexivity.
Qed.

Lemma all_chars_impl (ok ok' : ascii -> bool) (s : string) :
  (forall c, ok c = true -> ok' c = true) ->
  all_chars ok s = true -> all_chars ok' s = true.
Proof.
  intros Himp. induction s as [|c s IH]; simpl; [reflexivity|]. intros H.
  apply andb_true_iff in H. destruct H as [Hc Hs].
  now rewrite (Himp _ Hc), (IH Hs).
Qed.

Lemma parsed_date_plain (s : string) : parses s = true -> plain_segment s.
Proof.
  intros Hp. repeat split.
  - intros ->. discriminate.
  - intros ->. discriminate.
  - eapply all_chars_impl; [|apply parses_chars, Hp].
    intros c Hc. destruct (Ascii.eqb_spec c "/"); [subst; discriminate|reflexivity].
Qed.

(** X4.  The two lookups agree: for a triple that bulk discovery
    describes, with a device name that is one path component, the
    single-target lookup of its device and date returns the very path of
    the triple, after one existence check. *)
Theorem single_lookup_finds_discovered (w : world) (self : SEDSummaryUploader)
        (device_id date : string) (file_path : Path) (t : list event) :
  is_summary_triple (fs w) (base_dir self) device_id date file_path ->
  plain_segment device_id ->
  find_summary_file w self device_id date t =
  (Return (Some file_path), t ++ [Fs (SysStat file_path)]).
Proof.
  intros (_ & _ & _ & _ & Hp & Hpath & He) Hd.
  unfold find_summary_file.
  change (base_dir self // device_id // date // "sed-summary" // "result.json")
    with (summary_path (base_dir self // device_id // date)).
  rewrite (joinpath_plain _ Hd), (joinpath_plain _ (parsed_date_plain _ Hp)).
  rewrite <- Hpath. unfold exists_, bind, emit, ret. rewrite He. reflexivity.
Qed.

Lemma single_lookup_finds_discovered_witness :
  find_summary_file Sample.w Sample.uploader "devA" "2024-01-01" [] =
  (Return (Some Sample.devA_path), [] ++ [Fs (SysStat Sample.devA_path)]).
Proof.
  apply (@single_lookup_finds_discovered Sample.w Sample.uploader
           "devA" "2024-01-01" Sample.devA_path []).
  - unfold is_summary_triple. repeat split; vm_compute; auto.
  - unfold plain_segment. repeat split; try discriminate.
Defined.

(** ** One upload, step by step *)

Lemma clause_logs (d date : string) (p : Path)
      (cl : exn * (exn -> M bool)) (e : exn) (t : list event) :
  In cl (upload_clauses d date p) ->
  exists m, snd cl e t = (Return false, t ++ [Log ERROR m]).
Proof.
  unfold upload_clauses.
  intros [<-|[<-|[<-|[<-|[]]]]]; eexists; reflexivity.
Qed.

Section Steps.

Variable w : world.
Variable self : SEDSummaryUploader.
Variable session : ClientSession.
Variables device_id date : string.
Variable file_path : Path.

Let step := upload_step w self session device_id date file_path.

(** In any world, what an upload does is logging, opening its file,
    sending the form of its text through its session, and reading the
    body of the response. *)
Lemma upload_summary_file_steps :
  ends anything step (fun _ => True)
       (upload_summary_file w self session device_id date file_path).
Proof.
  unfold upload_summary_file.
  eapply ends_try_except with (E' := anything); [| |intros; exact I].
  - unfold upload_attempt. logs.
    eapply ends_bind.
    { apply read_text_ends with (E := anything); [reflexivity|intros; exact I]. }
    intros file_content Hcontent. eapply ends_bind with (Q := fun _ => True).
    { intros t. unfold post.
      destruct (net w (posts t) session _);
        exists [Post session (form_data self file_content device_id date)];
        simpl; (split; [reflexivity|]); (split; [|exact I]);
        (constructor; [|constructor]); unfold step; simpl;
        (split; [reflexivity|]); exists file_content;
        (split; [exact Hcontent|reflexivity]). }
    intros response _.
    destruct (status response =? 200)%Z.
    + logs. apply ends_ret. exact I.
    + eapply ends_bind with (Q := fun _ => True).
      { unfold response_text. logs. destruct (body response);
          [apply ends_ret|apply ends_raise]; exact I. }
      intros error_text _. logs. apply ends_ret. exact I.
  - apply Forall_forall. intros cl Hcl e t.
    destruct (clause_logs e t Hcl) as (m & ->).
    exists [Log ERROR m]. simpl. repeat split; auto. repeat constructor.
Qed.

End Steps.

(** X5.  A path that does not name a readable text file costs no
    request: the upload logs its start, tries to open the file, logs one
    error and returns [False].  For a path string shorter than [PATH_MAX]
    the error is the file-not-found record when the path names nothing;
    otherwise it is the unexpected-error record with the exception that
    opening or reading raised: [IsADirectoryError] for a directory,
    [NotADirectoryError] where a component is a regular file, [OSError]
    for a name that is too long, [UnicodeDecodeError] for a file whose
    bytes are not UTF-8. *)
Theorem unreadable_file_sends_nothing (w : world) (self : SEDSummaryUploader)
        (session : ClientSession) (d date : string) (p : Path)
        (t : list event) :
  (String.length (path_string p) <? PATH_MAX)%nat = true ->
  (forall content, stat (fs w) p <> Found (File (Some content))) ->
  upload_summary_file w self session d date p t =
    (Return false,
     t ++ [Log INFO (MsgUploadStart d date); Fs (SysOpen p);
           Log ERROR match stat (fs w) p with
                     | ENOENT => MsgFileNotFound p
                     | Found (Dir _) => MsgUnexpected d date IsADirectoryError
                     | Found (File _) => MsgUnexpected d date UnicodeDecodeError
                     | ENOTDIR => MsgUnexpected d date NotADirectoryError
                     | ENAMETOOLONG => MsgUnexpected d date OSError
                     end]).
Proof.
  intros _ Hs.
  unfold upload_summary_file, try_except, upload_attempt, read_text.
  cbv [bind log emit].
  destruct (stat (fs w) p) as [[[content|]|es]| | |] eqn:Est;
    [exfalso; eapply Hs; reflexivity| | | | |];
    cbv [raise]; simpl; cbv [bind log emit ret];
    rewrite <- ?app_assoc; reflexivity.
Qed.

Lemma unreadable_file_sends_nothing_witness :
  upload_summary_file Sample.w Sample.uploader Sample.session
                      "devA" "2024-01-01" (BASE_DIR // "devA") [] =
    (Return false,
     [] ++ [Log INFO (MsgUploadStart "devA" "2024-01-01");
            Fs (SysOpen (BASE_DIR // "devA"));
            Log ERROR (MsgUnexpected "devA" "2024-01-01" IsADirectoryError)]) /\
  upload_summary_file Sample.w Sample.uploader Sample.session
                      "devA" "2024-01-01" (BASE_DIR // "devZ") [] =
    (Return false,
     [] ++ [Log INFO (MsgUploadStart "devA" "2024-01-01");
            Fs (SysOpen (BASE_DIR // "devZ"));
            Log ERROR (MsgFileNotFound (BASE_DIR // "devZ"))]) /\
  upload_summary_file Sample.w Sample.uploader Sample.session
                      "devA" "2024-01-01" (BASE_DIR // overlong) [] =
    (Return false,
     [] ++ [Log INFO (MsgUploadStart "devA" "2024-01-01");
            Fs (SysOpen (BASE_DIR // overlong));
            Log ERROR (MsgUnexpected "devA" "2024-01-01" OSError)]).
Proof.
  split; [|split].
  - apply (@unreadable_file_sends_nothing Sample.w Sample.uploader
             Sample.session "devA" "2024-01-01" (BASE_DIR // "devA") []);
      [reflexivity|]. intros content. vm_compute. discriminate.
  - apply (@unreadable_file_sends_nothing Sample.w Sample.uploader
             Sample.session "devA" "2024-01-01" (BASE_DIR // "devZ") []);
      [reflexivity|]. intros content. vm_compute. discriminate.
  - apply (@unreadable_file_sends_nothing Sample.w Sample.uploader
             Sample.session "devA" "2024-01-01" (BASE_DIR // overlong) []);
      [reflexivity|]. intros content. vm_compute. discriminate.
Defined.

(** X6.  A request that raises is one failed upload with one error
    record, chosen by the class of the exception: a [ClientError] is a
    connection error; an exception that derives from [Exception] but from
    none of [ClientError], [JSONDecodeError] and [FileNotFoundError], such
    as a timeout, is an unexpected error. *)
Theorem request_failure_is_logged_by_class (w : world)
        (self : SEDSummaryUploader) (session : ClientSession)
        (d date : string) (p : Path) (t : list event)
        (content : string) (e : exn) :
  stat (fs w) p = Found (File (Some content)) ->
  net w (posts t) session (form_data self content d date) = PostRaises e ->
  let sent := t ++ [Log INFO (MsgUploadStart d date); Fs (SysOpen p);
                    Post session (form_data self content d date)] in
  (isinstance e ClientError = true ->
   upload_summary_file w self session d date p t =
     (Return false, sent ++ [Log ERROR (MsgConnectionError d date e)])) /\
  (isinstance e Exception = true ->
   isinstance e ClientError = false ->
   isinstance e JSONDecodeError = false ->
   isinstance e FileNotFoundError = false ->
   upload_summary_file w self session d date p t =
     (Return false, sent ++ [Log ERROR (MsgUnexpected d date e)])).
Proof.
  intros Hs Hn sent.
  assert (Ha : upload_attempt w self session d date p t = (Raise e, sent)).
  { unfold upload_attempt, read_text, post. cbv [bind log emit].
    rewrite Hs. cbv [ret]. rewrite !posts_app. simpl posts.
    rewrite !app_nil_r, Hn. unfold sent. rewrite <- !app_assoc. reflexivity. }
  unfold upload_summary_file, try_except. rewrite Ha.
  unfold upload_clauses. cbn [find fst snd]. split.
  - intros ->. reflexivity.
  - intros He -> -> ->. rewrite He. reflexivity.
Qed.

Lemma request_failure_is_logged_by_class_witness :
  let w := mkWorld Sample.disk (fun _ _ _ => PostRaises TimeoutError) in
  let sent := [] ++ [Log INFO (MsgUploadStart "devA" "2024-01-01");
                     Fs (SysOpen Sample.devA_path);
                     Post Sample.session
                          (form_data Sample.uploader "a" "devA" "2024-01-01")] in
  (isinstance TimeoutError ClientError = true ->
   upload_summary_file w Sample.uploader Sample.session
                       "devA" "2024-01-01" Sample.devA_path [] =
     (Return false,
      sent ++ [Log ERROR (MsgConnectionError "devA" "2024-01-01" TimeoutError)])) /\
  (isinstance TimeoutError Exception = true ->
   isinstance TimeoutError ClientError = false ->
   isinstance TimeoutError JSONDecodeError = false ->
   isinstance TimeoutError FileNotFoundError = false ->
   upload_summary_file w Sample.uploader Sample.session
                       "devA" "2024-01-01" Sample.devA_path [] =
     (Return false,
      sent ++ [Log ERROR (MsgUnexpected "devA" "2024-01-01" TimeoutError)])).
Proof.
  cbv zeta.
  apply (@request_failure_is_logged_by_class
           (mkWorld Sample.disk (fun _ _ _ => PostRaises TimeoutError))
           Sample.uploader Sample.session "devA" "2024-01-01"
           Sample.devA_path [] "a" TimeoutError); reflexivity.
Defined.

(** What the [except] clauses add to the trace of a failed [try] block:
    one error record, or nothing when no clause matches. *)
Lemma dispatch_logs (d date : string) (p : Path) (e : exn) (t : list event) :
  exists r tail,
    match find (fun cl => isinstance e (fst cl)) (upload_clauses d date p) with
    | Some cl => snd cl e t
    | None => (Raise e, t)
    end = (r : outcome bool, t ++ tail) /\
    (tail = [] \/ exists m, tail = [Log ERROR m]).
Proof.
  destruct (find _ (upload_clauses d date p)) as [cl|] eqn:Ef.
  - apply find_some in Ef. destruct Ef as [Hin _].
    destruct (clause_logs e t Hin) as (m & ->). eauto 6.
  - exists (Raise e), []. rewrite app_nil_r. auto.
Qed.

(** X7.  In any world an upload sends at most one request, and the
    request it sends is the multipart form of the source: the text of the
    file under the file name [result.json] with content type
    [application/json], the device id and the date given, to the URL of
    the uploader, with a timeout of 60 seconds. *)
Theorem upload_sends_at_most_the_form (w : world) (self : SEDSummaryUploader)
        (session : ClientSession) (d date : string) (p : Path)
        (t : list event) :
  exists evs,
    snd (upload_summary_file w self session d date p t) = t ++ evs /\
    (posts evs = [] \/
     exists content,
       stat (fs w) p = Found (File (Some content)) /\
       posts evs = [mkRequest (upload_url self) content "result.json"
                              "application/json" d date 60]).
Proof.
  unfold upload_summary_file, try_except.
  destruct (stat (fs w) p) as [[[content|]|es]| | |] eqn:Est.
  1: { destruct (net w (posts t) session (form_data self content d date))
         as [e|st text] eqn:En.
       - assert (Ha : upload_attempt w self session d date p t =
                   (Raise e, t ++ [Log INFO (MsgUploadStart d date);
                                   Fs (SysOpen p);
                                   Post session (form_data self content d date)])).
         { unfold upload_attempt, read_text, post. cbv [bind log emit].
           rewrite Est. cbv [ret]. rewrite !posts_app. simpl posts.
           rewrite !app_nil_r, En. rewrite <- !app_assoc. reflexivity. }
         rewrite Ha.
         destruct (dispatch_logs d date p e
                     (t ++ [Log INFO (MsgUploadStart d date); Fs (SysOpen p);
                            Post session (form_data self content d date)]))
           as (r & tail & -> & Htail).
         eexists. rewrite <- app_assoc. split; [reflexivity|]. right.
         exists content. split; [reflexivity|].
         destruct Htail as [->|[m ->]]; reflexivity.
       - rewrite (@upload_attempt_response w self session d date p t
                    content st text Est En). cbv zeta.
         destruct (st =? 200)%Z; [|destruct text as [b|e]].
         + eexists. rewrite <- app_assoc. split; [reflexivity|]. right.
           exists content. split; reflexivity.
         + eexists. rewrite <- app_assoc. split; [reflexivity|]. right.
           exists content. split; reflexivity.
         + destruct (dispatch_logs d date p e
                       ((t ++ [Log INFO (MsgUploadStart d date); Fs (SysOpen p);
                               Post session (form_data self content d date)])
                          ++ [ReadBody]))
             as (r & tail & -> & Htail).
           eexists. rewrite <- !app_assoc. split; [reflexivity|]. right.
           exists content. split; [reflexivity|].
           destruct Htail as [->|[m ->]]; reflexivity. }
  all: unfold upload_attempt, read_text; cbv [bind log emit]; rewrite Est;
    cbv [raise]; simpl; cbv [bind log emit ret];
    eexists; rewrite <- ?app_assoc; (split; [reflexivity|]); left; reflexivity.
Qed.

(** ** Runs, step by step *)


Lemma upload_step_run_step (w : world) (self : SEDSummaryUploader)
      (d date : string) (p : Path) (ev : event) :
  upload_step w self (mkSession (connector_param self)) d date p ev ->
  run_step self ev.
Proof.
  destruct ev; simpl; try tauto.
  intros (-> & content & _ & ->). simpl. repeat split.
Qed.

Lemma discovery_event_run_step (self : SEDSummaryUploader) (base : Path)
      (ev : event) :
  discovery_event base ev -> run_step self ev.
Proof. destruct ev; simpl; tauto. Qed.

Section RunSteps.

Variable w : world.
Variable self : SEDSummaryUploader.
Variable E : exn -> Prop.

Let session := mkSession (connector_param self).

(** What is known of one upload through the session of [self]. *)
Hypothesis upload_steps :
  forall d date p,
    ends E (upload_step w self session d date p) (fun _ => True)
         (upload_summary_file w self session d date p).

Lemma collect_steps (files : list (string * string * Path)) :
  ends E (run_step self)
       (fun counts => fst counts + snd counts = List.length files)
       (for_each
          (map (fun '(device_id, date, file_path) =>
                  (device_id, date,
                   upload_summary_file w self session device_id date file_path))
               files)
          (0, 0) collect).
Proof.
  eapply ends_weaken with (E' := E) (P' := run_step self); [|auto|auto|].
  - apply ends_for_each
      with (I := fun passed (counts : nat * nat) =>
                   fst counts + snd counts = List.length passed)
           (passed := []); [|reflexivity].
    intros passed [[d date] task] [s f] Hx Hsum. simpl in Hsum.
    apply in_map_iff in Hx. destruct Hx as ([[d' date'] p] & [= <- <- <-] & _).
    unfold collect, await. eapply ends_bind.
    { eapply ends_weaken; [apply upload_steps|auto| |intros a Ha; exact Ha].
      intros ev. apply upload_step_run_step. }
    intros ok _. destruct ok; apply ends_ret; rewrite length_app; simpl; lia.
  - simpl. intros counts Hsum. now rewrite length_map in Hsum.
Qed.

Lemma upload_all_summaries_steps :
  (path_exists (fs w) (base_dir self) = Raise OSError -> E OSError) ->
  (path_exists (fs w) (base_dir self) = Return true ->
   path_is_dir (fs w) (base_dir self) = Return false ->
   E NotADirectoryError) ->
  ends E (run_step self) (fun r => success r + failed r = total r)
       (upload_all_summaries w self).
Proof.
  intros HO HE. unfold upload_all_summaries.
  eapply ends_bind.
  { eapply ends_weaken; [apply find_all_ends; [exact HO|exact HE]|auto| |].
    - apply discovery_event_run_step.
    - intros a Ha. exact Ha. }
  simpl. intros files _. destruct files as [|f files].
  - logs. apply ends_ret. reflexivity.
  - eapply ends_bind.
    { apply ends_with_session; [reflexivity|exact I|]. apply collect_steps. }
    simpl. intros counts Hsum. apply ends_ret. exact Hsum.
Qed.

Lemma upload_specific_summary_steps (d date : string) :
  (path_exists (fs w)
     (base_dir self // d // date // "sed-summary" // "result.json") =
   Raise OSError -> E OSError) ->
  ends E (run_step self) (fun _ => True)
       (upload_specific_summary w self d date).
Proof.
  intros HO. unfold upload_specific_summary, find_summary_file.
  eapply ends_bind with (Q := fun _ => True).
  { eapply ends_bind; [apply exists_ends; [exact I|exact HO]|].
    intros e _. destruct e; [apply ends_ret; exact I|].
    logs. apply ends_ret. exact I. }
  intros [p|] _.
  - apply ends_with_session; [reflexivity|exact I|]. unfold await.
    eapply ends_weaken; [apply upload_steps|auto| |auto].
    intros ev. apply upload_step_run_step.
  - logs. apply ends_ret. exact I.
Qed.

(** A run ends as its uploads, the existence check of its one path and
    the listing of the base directory allow; its steps are those of
    [run_step], and the counts it returns add up, to one in a single-file
    run. *)
Lemma run_steps (device_id date : option string) :
  (truthy device_id && truthy date = true ->
   path_exists (fs w)
     (base_dir self // str_of device_id // str_of date
        // "sed-summary" // "result.json") = Raise OSError -> E OSError) ->
  (truthy device_id && truthy date = false ->
   path_exists (fs w) (base_dir self) = Raise OSError -> E OSError) ->
  (truthy device_id && truthy date = false ->
   path_exists (fs w) (base_dir self) = Return true ->
   path_is_dir (fs w) (base_dir self) = Return false ->
   E NotADirectoryError) ->
  ends E (run_step self)
       (fun r => success r + failed r = total r /\
                 (truthy device_id && truthy date = true -> total r = 1))
       (run w self device_id date).
Proof.
  intros Hone HO HE. unfold run, await. logs.
  destruct (truthy device_id && truthy date).
  - logs. eapply ends_bind; [apply upload_specific_summary_steps; auto|].
    intros ok _. apply ends_ret. destruct ok; simpl; auto.
  - logs. eapply ends_weaken; [apply upload_all_summaries_steps|auto|auto|];
      auto.
    intros r Hr. split; [exact Hr|discriminate].
Qed.

End RunSteps.


Lemma run_steps_anywhere (w : world) (self : SEDSummaryUploader)
      (device_id date : option string) :
  ends anything (run_step self)
       (fun r => success r + failed r = total r /\
                 (truthy device_id && truthy date = true -> total r = 1))
       (run w self device_id date).
Proof.
  apply run_steps; try (intros; exact I).
  intros d day p. apply upload_summary_file_steps.
Qed.









(** X9.  A single-file run whose file is there and readable, and whose
    request is answered with status 200, does exactly this: one existence
    check, one session, one request carrying the text of the file, and the
    result one success out of one. *)
Theorem single_run_uploads_the_file (w : world) (self : SEDSummaryUploader)
        (device_id date : option string) (t : list event)
        (content : string) (text : outcome string) :
  truthy device_id = true ->
  truthy date = true ->
  let d := str_of device_id in
  let day := str_of date in
  let file_path := base_dir self // d // day // "sed-summary" // "result.json" in
  let session := mkSession (connector_param self) in
  stat (fs w) file_path = Found (File (Some content)) ->
  net w (posts t) session (form_data self content d day) = PostResponse 200 text ->
  run w self device_id date t =
  (Return (mkResult 1 0 1),
   t ++ [Log INFO MsgRunStart; Log INFO (MsgRunSpecific d day);
         Fs (SysStat file_path); SessionOpen session;
         Log INFO (MsgUploadStart d day); Fs (SysOpen file_path);
         Post session (form_data self content d day);
         Log INFO (MsgUploadOk d day); SessionClose]).
Proof.
  intros Hd Hday d day file_path session Hs Hn.
  unfold run, await, bind, log, emit. rewrite Hd, Hday. cbn [andb].
  fold d day. unfold upload_specific_summary, find_summary_file, bind.
  fold file_path. unfold exists_, bind, emit, ret, ended, path_exists.
  rewrite Hs. unfold with_session, bind, emit, await. fold session.
  unfold upload_summary_file, try_except.
  match goal with
  | |- context [upload_attempt w self session d day file_path ?t0] =>
      assert (Hp : posts t0 = posts t)
        by (rewrite !posts_app; simpl; now rewrite !app_nil_r);
      rewrite <- Hp in Hn;
      rewrite (@upload_attempt_response w self session d day file_path t0
                 content 200 text Hs Hn)
  end.
  cbv zeta. simpl. rewrite <- !app_assoc. reflexivity.
Qed.

Lemma single_run_uploads_the_file_witness :
  run Sample.w Sample.uploader (Some "devA") (Some "2024-01-01") [] =
  (Return (mkResult 1 0 1),
   [] ++ [Log INFO MsgRunStart; Log INFO (MsgRunSpecific "devA" "2024-01-01");
          Fs (SysStat Sample.devA_path); SessionOpen Sample.session;
          Log INFO (MsgUploadStart "devA" "2024-01-01");
          Fs (SysOpen Sample.devA_path);
          Post Sample.session
               (form_data Sample.uploader "a" "devA" "2024-01-01");
          Log INFO (MsgUploadOk "devA" "2024-01-01"); SessionClose]).
Proof.
  apply (@single_run_uploads_the_file Sample.w Sample.uploader
           (Some "devA") (Some "2024-01-01") [] "a" (Return "ok"));
    reflexivity.
Defined.

(** ** TLS and the target of the requests *)

Lemma run_step_over_tls (self : SEDSummaryUploader) (ev : event) :
  run_step self ev -> over_tls (connector_param self) ev.
Proof.
  destruct ev; simpl; auto.
  - intros (-> & _). reflexivity.
  - intros ->. reflexivity.
Qed.

(** X10.  The uploader the constructor builds opens its sessions, and
    sends its requests, with certificate verification when [verify_ssl]
    is set and with the context that checks neither host name nor
    certificate when it is not, in any run and any world. *)
Theorem sessions_follow_verify_ssl (w : world) (url : string) (verify : bool)
        (device_id date : option string) (t0 t : list event) :
  exists self evs,
    init url verify t0 = (Return self, t0 ++ [BasicConfig INFO]) /\
    snd (run w self device_id date t) = t ++ evs /\
    Forall (over_tls (if verify then SslTrue
                      else SslContext (Some NoVerification))) evs.
Proof.
  eexists. 
  destruct (run_steps_anywhere w
              (mkUploader url BASE_DIR verify
                 (if negb verify then Some NoVerification else None))
              device_id date t) as (evs & Et & Hevs & _).
  exists evs. split; [reflexivity|]. split; [exact Et|].
  eapply Forall_impl; [|exact Hevs].
  intros ev Hev. apply run_step_over_tls in Hev.
  unfold connector_param in Hev. destruct verify; exact Hev.
Qed.

Lemma report_prints_only (P : event -> Prop) (result : RunResult) :
  (forall l, P (Stdout l)) ->
  ends anything P (fun _ => True) (report result).
Proof.
  intros HP. unfold report, print.
  repeat (eapply ends_bind;
          [first [apply ends_emit with (Q := fun _ => True); auto
                 |instantiate (1 := fun _ => True);
                  destruct (0 <? total result)%nat;
                  [apply ends_emit; auto|apply ends_ret; exact I]]
          |intros _ _]).
  destruct (0 <? success result)%nat; [|destruct (total result =? 0)%nat];
    apply ends_emit; auto.
Qed.

Lemma run_step_invocation_step (args : Namespace) (ev : event) :
  run_step (mkUploader (arg_upload_url args) BASE_DIR true None) ev ->
  invocation_step args ev.
Proof. destruct ev; simpl; auto. Qed.

(** The steps of an invocation, in any world. *)
Lemma main_steps (w : world) (args : Namespace) :
  ends anything (invocation_step args) (fun _ => True) (main w args).
Proof.
  unfold main, await.
  eapply ends_bind with (Q := fun _ => True).
  { destruct (arg_verbose args); [apply ends_emit|apply ends_ret]; simpl; auto. }
  intros _ _.
  destruct (_ || _); [apply ends_emit; simpl; auto|].
  destruct (_ && _); [apply ends_emit; simpl; auto|].
  unfold init.
  eapply ends_bind
    with (Q := fun self =>
                 self = mkUploader (arg_upload_url args) BASE_DIR true None).
  { logs. apply ends_ret. reflexivity. }
  intros self ->. eapply ends_bind.
  - eapply ends_weaken; [apply run_steps_anywhere|auto| |].
    + apply run_step_invocation_step.
    + intros a Ha. exact Ha.
  - intros result _. apply report_prints_only. intros l. exact I.
Qed.

(** X11.  Whatever the arguments and the world, every request of an
    invocation goes to the URL given by [--upload-url], as the file
    [result.json] of type [application/json] with a timeout of 60 seconds,
    through a session that verifies certificates: the command line cannot
    switch verification off. *)
Theorem invocation_requests (w : world) (args : Namespace) (t : list event) :
  exists evs,
    snd (main w args t) = t ++ evs /\
    Forall (over_tls SslTrue) evs /\
    Forall (fun r => req_url r = arg_upload_url args /\
                     req_filename r = "result.json" /\
                     req_content_type r = "application/json" /\
                     req_timeout r = 60%Z) (posts evs).
Proof.
  destruct (main_steps w args t) as (evs & Et & Hevs & _).
  exists evs. split; [exact Et|]. split.
  - eapply Forall_impl; [|exact Hevs].
    intros ev Hev. destruct ev; simpl in *; auto.
    + destruct Hev as [-> _]. reflexivity.
    + subst. reflexivity.
  - clear Et. induction Hevs as [|ev evs Hev _ IH]; [constructor|].
    destruct ev; simpl in *; auto. constructor; [|exact IH]. tauto.
Qed.

(** ** Sessions *)

Lemma sessions_app (t t' : list event) :
  sessions (t ++ t') = sessions t ++ sessions t'.
Proof.
  induction t as [|ev t IH]; simpl; [reflexivity|].
  destruct ev; simpl; rewrite ?IH; reflexivity.
Qed.

Lemma sessions_none (evs : list event) :
  Forall no_session evs -> sessions evs = [].
Proof.
  induction 1 as [|ev evs Hev _ IH]; [reflexivity|].
  destruct ev; simpl in *; auto; contradiction.
Qed.

Lemma upload_step_no_session (w : world) (self : SEDSummaryUploader)
      (session : ClientSession) (d date : string) (p : Path) (ev : event) :
  upload_step w self session d date p ev -> no_session ev.
Proof. destruct ev; simpl; auto. Qed.

Lemma discovery_event_no_session (base : Path) (ev : event) :
  discovery_event base ev -> no_session ev.
Proof. destruct ev; simpl; auto. Qed.

(** A block without session events, run under [with_session], shows one
    opening and one closing, however the block ends. *)
Lemma with_session_sessions {A} (ssl : ssl_param) (block : ClientSession -> M A)
      (Q : A -> Prop) (t : list event) :
  ends anything no_session Q (block (mkSession ssl)) ->
  exists evs,
    snd (with_session ssl block t) = t ++ evs /\
    sessions evs = [true; false].
Proof.
  intros Hb. unfold with_session, bind, emit.
  destruct (Hb (t ++ [SessionOpen (mkSession ssl)])) as (evs & Et & Hevs & _).
  destruct (block _ _) as [r t'] eqn:Eb. simpl in *. subst t'.
  exists ([SessionOpen (mkSession ssl)] ++ evs ++ [SessionClose]).
  rewrite !app_assoc. split; [reflexivity|].
  rewrite <- !app_assoc, !sessions_app, (sessions_none Hevs). reflexivity.
Qed.

Section Sessions.

Variable w : world.
Variable self : SEDSummaryUploader.

Lemma collect_no_session (session : ClientSession)
      (files : list (string * string * Path)) (counts : nat * nat) :
  ends anything no_session (fun _ => True)
       (for_each
          (map (fun '(device_id, date, file_path) =>
                  (device_id, date,
                   upload_summary_file w self session device_id date file_path))
               files)
          counts collect).
Proof.
  eapply ends_weaken with (E' := anything) (P' := no_session);
    [|auto|auto|intros; exact I].
  apply ends_for_each with (I := fun _ _ => True) (passed := []); [|exact I].
  intros passed [[d date] task] [s f] Hx _.
  apply in_map_iff in Hx. destruct Hx as ([[d' date'] p] & [= <- <- <-] & _).
  unfold collect, await. eapply ends_bind with (Q := fun _ => True).
  - eapply ends_weaken; [apply upload_summary_file_steps|auto| |auto].
    intros ev. apply upload_step_no_session.
  - intros ok _. destruct ok; apply ends_ret; exact I.
Qed.

Lemma upload_all_summaries_sessions (t : list event) :
  exists evs,
    snd (upload_all_summaries w self t) = t ++ evs /\
    (sessions evs = [] \/ sessions evs = [true; false]).
Proof.
  unfold upload_all_summaries, bind.
  destruct (@find_all_ends w anything self (fun _ => I) (fun _ _ => I) t)
    as (found & Et & Hfound & _).
  assert (Hnone : sessions found = []).
  { apply sessions_none. eapply Forall_impl; [|exact Hfound].
    apply discovery_event_no_session. }
  destruct (find_all_summary_files w self t) as [[files|e] t1];
    simpl in Et; subst t1.
  - destruct files as [|f files].
    + exists (found ++ [Log WARNING MsgNothingToUpload]).
      unfold log, emit, ret. simpl. rewrite <- app_assoc.
      split; [reflexivity|]. left. rewrite sessions_app, Hnone. reflexivity.
    + match goal with
      | |- context [with_session ?ssl ?block _] =>
          destruct (@with_session_sessions _ ssl block (fun _ => True)
                      (t ++ found)
                      (collect_no_session (mkSession ssl) (f :: files) (0, 0)))
            as (evs & Es & Hs)
      end.
      destruct (with_session _ _ _) as [[counts|e] t2];
        simpl in Es; subst t2; exists (found ++ evs);
        rewrite <- app_assoc; (split; [reflexivity|]); right;
        rewrite sessions_app, Hnone; exact Hs.
  - exists found. split; [reflexivity|]. left. exact Hnone.
Qed.

Lemma upload_specific_summary_sessions (d date : string) (t : list event) :
  exists evs,
    snd (upload_specific_summary w self d date t) = t ++ evs /\
    (sessions evs = [] \/ sessions evs = [true; false]).
Proof.
  unfold upload_specific_summary, find_summary_file, exists_, bind, emit, ret,
    log, ended.
  simpl. destruct (path_exists _ _) as [[|]|e].
  - match goal with
    | |- context [with_session ?ssl ?block ?t0] =>
        assert (Hb : ends anything no_session (fun _ : bool => True)
                          (block (mkSession ssl)))
          by (unfold await; eapply ends_weaken;
              [apply upload_summary_file_steps|auto
              |intros ev; apply upload_step_no_session|auto]);
        destruct (with_session_sessions ssl block t0 Hb) as (evs & Es & Hs)
    end.
    eexists (_ :: evs). rewrite Es. rewrite <- app_assoc.
    split; [reflexivity|]. right. exact Hs.
  - unfold emit. simpl. eexists. rewrite <- !app_assoc.
    split; [reflexivity|]. left. reflexivity.
  - eexists. split; [reflexivity|]. left. reflexivity.
Qed.

End Sessions.

(** X12.  A run opens at most one session and closes the one it opens,
    in any world: also when an upload is cut short by an exception that no
    clause catches, the closing follows the opening. *)
Theorem every_session_is_closed (w : world) (self : SEDSummaryUploader)
        (device_id date : option string) (t : list event) :
  exists evs,
    snd (run w self device_id date t) = t ++ evs /\
    (sessions evs = [] \/ sessions evs = [true; false]).
Proof.
  unfold run, await, bind, log, emit.
  destruct (truthy device_id && truthy date).
  - match goal with
    | |- context [upload_specific_summary w self ?d ?day ?t0] =>
        destruct (upload_specific_summary_sessions w self d day t0)
          as (evs & Es & Hs);
        destruct (upload_specific_summary w self d day t0) as [[ok|e] t1]
    end; simpl in Es; subst t1;
      eexists (_ :: _ :: evs); unfold ret; simpl; rewrite <- !app_assoc;
      (split; [reflexivity|]); exact Hs.
  - match goal with
    | |- context [upload_all_summaries w self ?t0] =>
        destruct (upload_all_summaries_sessions w self t0) as (evs & Es & Hs)
    end.
    eexists (_ :: _ :: evs). rewrite Es. rewrite <- !app_assoc.
    split; [reflexivity|]. exact Hs.
Qed.

(** ** The report *)




(** ** The requests of a batch *)

Lemma sent_of_app (ms ms' : list mark) :
  sent_of (ms ++ ms') = sent_of ms ++ sent_of ms'.
Proof.
  induction ms as [|m ms IH]; simpl; [reflexivity|].
  destruct m; simpl; rewrite ?IH; reflexivity.
Qed.

Lemma sent_of_marks (evs : list event) :
  sent_of (marks evs) = map addressed (posts evs).
Proof.
  induction evs as [|ev evs IH]; simpl; [reflexivity|].
  destruct ev as [l m| | | | | | | |]; simpl; try exact IH.
  - destruct m; simpl; exact IH.
  - unfold addressed at 1. rewrite IH. reflexivity.
Qed.

Lemma in_turn_subseq (files : list (string * string * Path)) (ms : list mark) :
  in_turn files ms -> subseq (sent_of ms) (map fst files).
Proof.
  induction 1 as [|d date p files sent rest Hsent _ IH]; [constructor|].
  simpl. rewrite sent_of_app. simpl.
  destruct Hsent as [->| ->]; simpl; constructor; exact IH.
Qed.

(** X14.  In a batch run whose uploads fail only with exceptions, the
    requests follow the discovered list: read by device and date they are
    the discovered files in discovery order with some left out, so no
    file is sent twice and nothing is sent that was not discovered. *)
Theorem requests_follow_discovery (w : world) (self : SEDSummaryUploader)
        (t t1 : list event) (files : list (string * string * Path)) :
  fails_with_exceptions w ->
  find_all_summary_files w self t = (Return files, t1) ->
  exists evs,
    snd (upload_all_summaries w self t) = t1 ++ evs /\
    subseq (map addressed (posts evs)) (map fst files).
Proof.
  intros Hw Hfind. unfold upload_all_summaries, bind. rewrite Hfind.
  destruct files as [|f files].
  - exists [Log WARNING MsgNothingToUpload]. split; [reflexivity|constructor].
  - unfold with_session, bind, emit.
    destruct (collect_in_turn self (mkSession (connector_param self)) Hw
                (f :: files) (0, 0)
                (t1 ++ [SessionOpen (mkSession (connector_param self))]))
      as (counts & evs & -> & Hin).
    exists ([SessionOpen (mkSession (connector_param self))]
              ++ evs ++ [SessionClose]).
    rewrite <- !app_assoc. split; [reflexivity|].
    rewrite !posts_app. cbn [posts app]. rewrite app_nil_r, <- sent_of_marks.
    exact (in_turn_subseq Hin).
Qed.

Lemma requests_follow_discovery_witness :
  exists evs,
    snd (upload_all_summaries Sample.w Sample.uploader []) =
      snd (find_all_summary_files Sample.w Sample.uploader []) ++ evs /\
    subseq (map addressed (posts evs))
           (map fst [("devA", "2024-01-01", Sample.devA_path);
                     ("devB", "2024-01-02", Sample.devB_path)]).
Proof.
  apply (@requests_follow_discovery Sample.w Sample.uploader []
           (snd (find_all_summary_files Sample.w Sample.uploader []))
           [("devA", "2024-01-01", Sample.devA_path);
            ("devB", "2024-01-02", Sample.devB_path)]).
  - sample_server_answers.
  - vm_compute. reflexivity.
Defined.

(** ** Dates as path components *)

(** X16.  A string that passes the date check is one plain path
    component.  Its ASCII characters are digits, hyphens and spaces, and
    every other byte belongs to a character outside ASCII (a decimal digit
    of another script); so it holds no slash and no dot, is neither empty
    nor a dot name, and joining it to a path appends exactly that one
    component. *)
Theorem accepted_date_is_one_component (s : string) (p : Path) :
  parses s = true ->
  all_chars date_char s = true /\ plain_segment s /\ p // s = child p s.
Proof.
  intros Hp. split; [apply parses_chars, Hp|].
  split; [apply parsed_date_plain, Hp|].
  apply joinpath_plain, parsed_date_plain, Hp.
Qed.

Lemma accepted_date_is_one_component_witness :
  all_chars date_char "2024-1-5" = true /\ plain_segment "2024-1-5" /\
  BASE_DIR // "2024-1-5" = child BASE_DIR "2024-1-5".
Proof.
  apply (@accepted_date_is_one_component "2024-1-5" BASE_DIR). reflexivity.
Defined.
